(** * The e2e-framework lifecycle engine: environment, actions, features

    A shallow embedding of
    - [envconf.Config] and [envconf.RandomName] (pkg/envconf/config.go),
    - the test environment [testEnv] of package [env]: the registration
      methods, [getActionsByRole], [Test], [execFeature] and [Run],
    together with the properties of the lifecycle that the design document
    states about them.

    Go values are modelled as follows.
    - A [context.Context] is an interface value and may be [nil]: it is an
      [option] over an arbitrary type [C] of non-nil contexts.
    - A [*regexp.Regexp] is used only through [MatchString]: it is a record
      holding that predicate; the [nil] pointer is [None].
    - An [error] is used only through its message.
    - The functions supplied by the user (environment functions and step
      functions) are closures: besides their arguments they read and write
      the [*envconf.Config] they are handed and whatever variables they
      captured.  Both live in a [Store] that every call transforms.
    - A step function also receives the [*testing.T] of its (sub-)test.  The
      engine never reads that handle back; what matters to the control flow
      is whether the function returns or ends its goroutine through
      [t.FailNow]/[t.SkipNow] (also reached by [t.Fatal] and [t.Skip]).
    - [t.Run(name, f)] runs [f] in a goroutine of its own and waits for it:
      a sub-test that ends its goroutine ([t.Skipf], or a step that calls
      [t.FailNow]) gives the control back to the caller of [t.Run].  The
      name filter of the test binary ([go test -run]) and [t.Parallel] are
      outside this development.
    - Calls that the engine makes to its collaborators ([action.run], step
      functions, [t.Run], [t.Skipf], [t.Log], [t.Fatalf], [log.Fatal],
      [log.Println], [m.Run]) are recorded, in order, in a trace. *)

From Stdlib Require Import ZArith Lia Ascii String List.
From stdpp Require Import base list strings gmap.

Local Open Scope string_scope.
Local Open Scope Z_scope.
Local Open Scope list_scope.

(** ** Strings, the way Go uses them *)

(** The length of a Go string is its number of bytes. *)
Definition len (s : string) : Z := Z.of_nat (String.length s).

(** [s[:n]]: panics ([None]) unless [0 <= n <= len(s)]. *)
Definition sliceTo (s : string) (n : Z) : option string :=
  if (0 <=? n) && (n <=? len s)
  then Some (String.substring 0 (Z.to_nat n) s)
  else None.

(** The double quote character, for the messages that quote a name. *)
Definition dquote : string := String (ascii_of_nat 34) EmptyString.

(** ** encoding/hex *)

Definition hextable : string := "0123456789abcdef".

Definition hexDigit (i : N) : ascii :=
  match String.get (N.to_nat i) hextable with
  | Some c => c
  | None => "0"%char
  end.

(** [hex.EncodeToString]: two digits per byte, high nibble first. *)
Fixpoint EncodeToString (src : list Byte.byte) : string :=
  match src with
  | [] => EmptyString
  | v :: rest =>
      String (hexDigit (N.shiftr (Byte.to_N v) 4))
        (String (hexDigit (N.land (Byte.to_N v) 15)) (EncodeToString rest))
  end.

(** ** envconf.Config *)

Record Regexp := { MatchString : string -> bool }.

(** The fields of [envconf.Config]; the cached [klient.Client] is a handle
    of the resource layer and carries no behaviour of the engine. *)
Record Config := {
  kubeconfig : string;
  namespace : string;
  assessmentRegex : option Regexp;
  featureRegex : option Regexp;
  labels : gmap string string
}.

(** [envconf.New] *)
Definition New : Config :=
  {| kubeconfig := ""; namespace := ""; assessmentRegex := None;
     featureRegex := None; labels := ∅ |}.

Definition WithKubeconfigFile (c : Config) (kubecfg : string) : Config :=
  {| kubeconfig := kubecfg; namespace := namespace c;
     assessmentRegex := assessmentRegex c; featureRegex := featureRegex c;
     labels := labels c |}.

Definition WithNamespace (c : Config) (ns : string) : Config :=
  {| kubeconfig := kubeconfig c; namespace := ns;
     assessmentRegex := assessmentRegex c; featureRegex := featureRegex c;
     labels := labels c |}.

(** [WithAssessmentRegex] and [WithFeatureRegex] take the compiled
    expression: [regexp.MustCompile] is not part of this development. *)
Definition WithAssessmentRegex (c : Config) (re : Regexp) : Config :=
  {| kubeconfig := kubeconfig c; namespace := namespace c;
     assessmentRegex := Some re; featureRegex := featureRegex c;
     labels := labels c |}.

Definition WithFeatureRegex (c : Config) (re : Regexp) : Config :=
  {| kubeconfig := kubeconfig c; namespace := namespace c;
     assessmentRegex := assessmentRegex c; featureRegex := Some re;
     labels := labels c |}.

Definition WithLabels (c : Config) (lbls : gmap string string) : Config :=
  {| kubeconfig := kubeconfig c; namespace := namespace c;
     assessmentRegex := assessmentRegex c; featureRegex := featureRegex c;
     labels := lbls |}.

(** ** Allocation

    [make([]byte, n)] and the growth of a byte buffer panic ("makeslice: len
    out of range", "growslice: len out of range") when the size asked is
    above the limit of the allocator, [runtime.maxAlloc]: 2^48 bytes on the
    64-bit platforms.  Up to the limit the allocation is taken to succeed:
    a machine that has not got the memory ends the program with a fatal
    error of the runtime, which is left out here. *)
Definition maxAlloc : Z := 2 ^ 48.

Definition allocates (size : Z) : bool := (0 <=? size) && (size <=? maxAlloc).

(** ** envconf.RandomName

    [rand.Seed(time.Now().UnixNano())] followed by [rand.Read(p)] fills [p]
    with the first [len(p)] bytes of the freshly seeded generator; the
    generator is the stream [rnd].  The result is [None] when the call
    panics: in [make([]byte, n)], in [hex.EncodeToString], which makes a
    slice of [2 * n] bytes, in the buffer of [fmt.Sprintf], which grows to
    the [len(prefix) + 1 + 2 * n] bytes of the string, or in the final slice
    expression. *)
Definition randRead (rnd : nat -> Byte.byte) (n : Z) : list Byte.byte :=
  List.map rnd (seq 0 (Z.to_nat n)).

Definition RandomName (rnd : nat -> Byte.byte) (prefix : string) (n : Z)
  : option string :=
  let n := if n =? 0 then 32 else n in
  if len prefix >=? n then Some prefix
  else if negb (allocates n) then None
  else if negb (allocates (2 * n)) then None
  else if negb (allocates (len prefix + 1 + 2 * n)) then None
  else
    let p := randRead rnd n in
    sliceTo (prefix +:+ "-" +:+ EncodeToString p) n.

Definition randNS (rnd : nat -> Byte.byte) : option string :=
  RandomName rnd "testns-" 32.

(** ** Roles and levels *)

(** Modelled from the spec: the constants of [actionRole] are declared in a
    file of package [env] that is not embedded here; the design document
    lists the six roles, and the engine refers to them by these names. *)
Inductive actionRole :=
| roleSetup | roleBeforeTest | roleBeforeFeature
| roleAfterFeature | roleAfterTest | roleFinish.

#[global] Instance actionRole_eq_dec : EqDecision actionRole.
Proof. solve_decision. Defined.

(** Modelled from the spec: the levels of [types.Level], declared in
    package [types], which is not embedded here; the engine refers to them
    by these names. *)
Inductive Level := LevelSetup | LevelAssess | LevelTeardown.

#[global] Instance Level_eq_dec : EqDecision Level.
Proof. solve_decision. Defined.

(** How a goroutine of the engine stops before the end of its function. *)
Inductive Stop :=
| StopGoexit              (* runtime.Goexit, through t.FailNow *)
| StopExit (code : Z)     (* os.Exit *)
| StopPanic (msg : string).

Inductive Outcome (A : Type) :=
| Done (a : A)
| Stopped (s : Stop).
Arguments Done {A} a.
Arguments Stopped {A} s.

Section Engine.

(** [C]: the non-nil contexts.  [U]: the variables captured by the closures
    that the user registers. *)
Context {C U : Type}.

Definition Context : Type := option C.

Definition error : Type := string.

Record Store := { cfg : Config; vars : U }.

(** [types.EnvFunc]: [func(context.Context, *envconf.Config) (context.Context, error)].
    The functions of this type are the ones that return; one that panics,
    exits the process, or ends the goroutine through a [*testing.T] that it
    has captured is not among them, and nothing below speaks of it. *)
Definition EnvFunc : Type :=
  Context -> Store -> (Context * option error) * Store.

(** What a call of a step function does to the goroutine of its test. *)
Inductive StepResult :=
| Returned (c : Context)
| Goexit.

(** [features.Func]:
    [func(context.Context, *testing.T, *envconf.Config) context.Context] *)
Definition StepFunc : Type := Context -> Store -> StepResult * Store.

(** [types.Step] and [types.Feature], through their accessors [Name()],
    [Level()], [Func()] and [Name()], [Labels()], [Steps()]. *)
Record Step := { sName : string; sLevel : Level; sFunc : StepFunc }.

Record Feature := {
  fName : string;
  fLabels : gmap string string;
  fSteps : list Step
}.

(** Modelled from the spec: [features.GetStepsByLevel] belongs to package
    [features], which is not embedded here.  "Steps are retrievable
    filtered by level, preserving original relative order within that
    level." *)
Definition GetStepsByLevel (steps : list Step) (l : Level) : list Step :=
  filter (fun s => sLevel s = l) steps.

(** Modelled from the spec: the struct [action] is declared in a file of
    package [env] that is not embedded here.  "Action: an ordered list of
    hook functions tagged with a role"; the registration methods build it
    as [action{role: ..., funcs: funcs}]. *)
Record action := { role : actionRole; funcs : list EnvFunc }.

(** Modelled from the spec: the method [action.run] is declared with the
    struct, in the file that is not embedded here.  The functions of an
    action run in order, each one on the context returned by the one before
    it; the first error ends the action and is returned with the context of
    the function that failed. *)
Fixpoint run_funcs (fs : list EnvFunc) (c : Context) (st : Store)
  : (Context * option error) * Store :=
  match fs with
  | [] => ((c, None), st)
  | f :: rest =>
      match f c st with
      | ((c', Some err), st') => ((c', Some err), st')
      | ((c', None), st') => run_funcs rest c' st'
      end
  end.

(** Modelled from the spec: [a.run(ctx, cfg)], the loop above on the
    functions of [a].  The engine and the properties below use nothing of
    it but what it returns. *)
Definition run (a : action) (c : Context) (st : Store)
  : (Context * option error) * Store :=
  run_funcs (funcs a) c st.

(** ** The environment *)

(** [testEnv].  The field [cfg] is a pointer that no method reassigns; the
    [Config] it points to is the one of the [Store]. *)
Record testEnv := { ctx : Context; actions : list action }.

(** [newTestEnv]: [context.Background()] is the non-nil context [bg]. *)
Definition newTestEnv (bg : C) : testEnv :=
  {| ctx := Some bg; actions := [] |}.

(** The body shared by the registration methods:
    [if len(funcs) == 0 { return e }]
    [e.actions = append(e.actions, action{role: r, funcs: funcs}); return e] *)
Definition register (r : actionRole) (e : testEnv) (fs : list EnvFunc)
  : testEnv :=
  match fs with
  | [] => e
  | _ :: _ =>
      {| ctx := ctx e;
         actions := actions e ++ [ {| role := r; funcs := fs |} ] |}
  end.

Definition Setup := register roleSetup.
Definition BeforeEachTest := register roleBeforeTest.
Definition BeforeEachFeature := register roleBeforeFeature.
Definition AfterEachFeature := register roleAfterFeature.
Definition AfterEachTest := register roleAfterTest.
Definition Finish := register roleFinish.

Definition getActionsByRole (e : testEnv) (r : actionRole) : list action :=
  filter (fun a => role a = r) (actions e).

Definition getSetupActions (e : testEnv) := getActionsByRole e roleSetup.
Definition getBeforeTestActions (e : testEnv) :=
  getActionsByRole e roleBeforeTest.
Definition getBeforeFeatureActions (e : testEnv) :=
  getActionsByRole e roleBeforeFeature.
Definition getAfterFeatureActions (e : testEnv) :=
  getActionsByRole e roleAfterFeature.
Definition getAfterTestActions (e : testEnv) :=
  getActionsByRole e roleAfterTest.
Definition getFinishActions (e : testEnv) := getActionsByRole e roleFinish.

(** ** The machine on which the engine runs *)

(** The calls of the engine to its collaborators. *)
Inductive Event :=
| EvAction (a : action)          (* a.run(e.ctx, e.cfg) *)
| EvRun (path : list string)     (* t.Run(name, ...), with the enclosing names *)
| EvStep (s : Step)              (* s.Func()(ctx, t, e.cfg) *)
| EvSkipf (msg : string)         (* t.Skipf *)
| EvLog (msg : string)           (* t.Log *)
| EvFatalf (msg : string)        (* t.Fatalf *)
| EvLogFatal (err : error)       (* log.Fatal *)
| EvLogPrintln (err : error)     (* log.Println *)
| EvMRun.                        (* m.Run() *)

Record Machine := {
  env : testEnv;
  store : Store;
  trace : list Event
}.

(** A computation of the engine: it transforms the machine and either
    yields a value or stops its goroutine (or the process). *)
Definition M (A : Type) : Type := Machine -> Outcome A * Machine.

Definition ret {A} (a : A) : M A := fun m => (Done a, m).

Definition bind {A B} (x : M A) (k : A -> M B) : M B :=
  fun m =>
    match x m with
    | (Done a, m') => k a m'
    | (Stopped s, m') => (Stopped s, m')
    end.

Notation "x <- c1 ;; c2" := (bind c1 (fun x => c2))
  (at level 100, c1 at next level, right associativity).
Notation "c1 ;; c2" := (bind c1 (fun _ => c2))
  (at level 100, right associativity).

Definition stop {A} (s : Stop) : M A := fun m => (Stopped s, m).

Definition emit (ev : Event) : M unit :=
  fun m =>
    (Done tt,
     {| env := env m; store := store m; trace := trace m ++ [ev] |}).

Definition getEnv : M testEnv := fun m => (Done (env m), m).

Definition getCtx : M Context := fun m => (Done (ctx (env m)), m).

(** [e.ctx = c] *)
Definition setCtx (c : Context) : M unit :=
  fun m =>
    (Done tt,
     {| env := {| ctx := c; actions := actions (env m) |};
        store := store m; trace := trace m |}).

(** [e.cfg], dereferenced. *)
Definition getCfg : M Config := fun m => (Done (cfg (store m)), m).

(** [e.ctx, err = a.run(e.ctx, e.cfg)] *)
Definition runAction (a : action) : M (option error) :=
  fun m =>
    match run a (ctx (env m)) (store m) with
    | ((c', err), st') =>
        (Done err,
         {| env := {| ctx := c'; actions := actions (env m) |};
            store := st'; trace := trace m ++ [EvAction a] |})
    end.

(** [t.Fatalf(format, err)], where [format] ends in [%s]: the message is
    logged and the goroutine of the test ends. *)
Definition Fatalf (format_prefix : string) (err : error) : M unit :=
  emit (EvFatalf (format_prefix +:+ err)) ;; stop StopGoexit.

(** [log.Fatal(err)]: the error is printed and the process exits with
    status 1. *)
Definition logFatal (err : error) : M unit :=
  emit (EvLogFatal err) ;; stop (StopExit 1).

(** ** execFeature *)

(** The state of the goroutine of a sub-test: the current value of the
    variable [ctx] that the closures share, and whether the goroutine is
    still running. *)
Inductive Flow :=
| Running (c : Context)
| Exited (c : Context).

Definition flowCtx (fl : Flow) : Context :=
  match fl with Running c => c | Exited c => c end.

(** [ctx = s.Func()(ctx, t, e.cfg)]: the assignment takes place only when
    the function returns. *)
Definition callStep (s : Step) (c : Context) : M Flow :=
  fun m =>
    match sFunc s c (store m) with
    | (r, st') =>
        (Done (match r with
               | Returned c' => Running c'
               | Goexit => Exited c
               end),
         {| env := env m; store := st'; trace := trace m ++ [EvStep s] |})
    end.

(** [for _, s := range steps { ctx = s.Func()(ctx, t, e.cfg) }], the loop
    over the setups and the one over the teardowns of a feature. *)
Fixpoint runSteps (steps : list Step) (c : Context) : M Flow :=
  match steps with
  | [] => ret (Running c)
  | s :: rest =>
      fl <- callStep s c ;;
      match fl with
      | Running c' => runSteps rest c'
      | Exited c' => ret (Exited c')
      end
  end.

(** [re != nil && !re.MatchString(name)] *)
Definition notMatched (re : option Regexp) (name : string) : bool :=
  match re with
  | Some r => negb (MatchString r name)
  | None => false
  end.

(** [t.Run(assess.Name(), func(t *testing.T) { ... })]: the sub-test has a
    goroutine of its own, so a step that ends it leaves the feature
    running. *)
Definition runAssessment (featName : string) (assess : Step) (c : Context)
  : M Context :=
  emit (EvRun [featName; sName assess]) ;;
  conf <- getCfg ;;
  if notMatched (assessmentRegex conf) (sName assess)
  then
    emit (EvSkipf ("Skipping assessment " +:+ dquote +:+ sName assess
                   +:+ dquote +:+ ": name not matched")) ;;
    ret c
  else
    fl <- callStep assess c ;;
    ret (flowCtx fl).

Fixpoint runAssessments (featName : string) (assessments : list Step)
  (c : Context) : M Context :=
  match assessments with
  | [] => ret c
  | assess :: rest =>
      c' <- runAssessment featName assess c ;;
      runAssessments featName rest c'
  end.

Definition execFeature (c : Context) (f : Feature) : M Context :=
  let featName := fName f in
  (* feature-level subtest *)
  emit (EvRun [featName]) ;;
  conf <- getCfg ;;
  if notMatched (featureRegex conf) featName
  then
    emit (EvSkipf ("Skipping feature " +:+ dquote +:+ featName
                   +:+ dquote +:+ ": name not matched")) ;;
    ret c
  else
    (* setups run at feature-level *)
    let setups := GetStepsByLevel (fSteps f) LevelSetup in
    fl <- runSteps setups c ;;
    match fl with
    | Exited c' => ret c'
    | Running c' =>
        (* assessments run as feature/assessment sub level *)
        let assessments := GetStepsByLevel (fSteps f) LevelAssess in
        c'' <- runAssessments featName assessments c' ;;
        (* teardowns run at feature-level *)
        let teardowns := GetStepsByLevel (fSteps f) LevelTeardown in
        fl' <- runSteps teardowns c'' ;;
        ret (flowCtx fl')
    end.

(** ** Test *)

(** [for _, action := range actions {]
    [  if e.ctx, err = action.run(e.ctx, e.cfg); err != nil { t.Fatalf(format, err) } }] *)
Fixpoint runActionsOrFatalf (format_prefix : string) (l : list action)
  : M unit :=
  match l with
  | [] => ret tt
  | a :: rest =>
      err <- runAction a ;;
      match err with
      | Some e => Fatalf format_prefix e
      | None => runActionsOrFatalf format_prefix rest
      end
  end.

(** The loop [for _, feature := range testFeatures]. *)
Fixpoint forEachFeature (beforeFeatureActions afterFeatureActions : list action)
  (testFeatures : list Feature) : M unit :=
  match testFeatures with
  | [] => ret tt
  | feature :: rest =>
      (* execute beforeFeature actions *)
      runActionsOrFatalf "BeforeEachTest failure: " beforeFeatureActions ;;
      (* execute feature test *)
      c <- getCtx ;;
      c' <- execFeature c feature ;;
      setCtx c' ;;
      (* execute beforeFeature actions *)
      runActionsOrFatalf "BeforeEachTest failure: " afterFeatureActions ;;
      forEachFeature beforeFeatureActions afterFeatureActions rest
  end.

Definition Test (testFeatures : list Feature) : M unit :=
  c <- getCtx ;;
  match c with
  | None => stop (StopPanic "context not set")
  | Some _ =>
      match testFeatures with
      | [] => emit (EvLog "No test testFeatures provided, skipping test")
      | _ :: _ =>
          (* execute the beforeTest functions *)
          e <- getEnv ;;
          runActionsOrFatalf "BeforeEachTest failure: "
            (getBeforeTestActions e) ;;
          (* execute each feature *)
          e <- getEnv ;;
          forEachFeature (getBeforeFeatureActions e)
            (getAfterFeatureActions e) testFeatures ;;
          (* execute afterTest functions *)
          e <- getEnv ;;
          runActionsOrFatalf "AfterEachTest failure: "
            (getAfterTestActions e)
      end
  end.

(** ** Run *)

(** [for _, setup := range setups {]
    [  if e.ctx, err = setup.run(e.ctx, e.cfg); err != nil { log.Fatal(err) } }] *)
Fixpoint runSetups (setups : list action) : M unit :=
  match setups with
  | [] => ret tt
  | setup :: rest =>
      err <- runAction setup ;;
      match err with
      | Some e => logFatal e
      | None => runSetups rest
      end
  end.

(** [for _, fin := range finishes {]
    [  if e.ctx, err = fin.run(e.ctx, e.cfg); err != nil { log.Println(err) } }] *)
Fixpoint runFinishes (finishes : list action) : M unit :=
  match finishes with
  | [] => ret tt
  | fin :: rest =>
      err <- runAction fin ;;
      match err with
      | Some e => emit (EvLogPrintln e) ;; runFinishes rest
      | None => runFinishes rest
      end
  end.

(** [m.Run()]: the test runner executes the test functions of the package,
    which share the environment, the store and the trace, and returns the
    exit code. *)
Definition Runner : Type := Machine -> Z * Machine.

Definition mRun (m : Runner) : M Z :=
  emit EvMRun ;;
  fun s => match m s with (exitCode, s') => (Done exitCode, s') end.

Definition Run (m : Runner) : M Z :=
  c <- getCtx ;;
  match c with
  | None => stop (StopPanic "context not set")
  | Some _ =>
      e <- getEnv ;;
      (* fail fast on setup, upon err exit *)
      runSetups (getSetupActions e) ;;
      exitCode <- mRun m ;; (* exec test suite *)
      e <- getEnv ;;
      (* attempt to gracefully clean up. Upon error, log and continue. *)
      runFinishes (getFinishActions e) ;;
      ret exitCode
  end.

End Engine.

Arguments Context C : clear implicits.
Arguments Store U : clear implicits.
Arguments EnvFunc C U : clear implicits.
Arguments StepResult C : clear implicits.
Arguments StepFunc C U : clear implicits.
Arguments Step C U : clear implicits.
Arguments Feature C U : clear implicits.
Arguments action C U : clear implicits.
Arguments testEnv C U : clear implicits.
Arguments Event C U : clear implicits.
Arguments Machine C U : clear implicits.
Arguments M C U A : clear implicits.
Arguments Flow C : clear implicits.
Arguments Runner C U : clear implicits.

Notation "x <- c1 ;; c2" := (bind c1 (fun x => c2))
  (at level 100, c1 at next level, right associativity).
Notation "c1 ;; c2" := (bind c1 (fun _ => c2))
  (at level 100, right associativity).

(** ** Reading a trace *)

Section Traces.

Context {C U : Type}.

(** The actions whose [run] was called, in order. *)
Fixpoint calledActions (tr : list (Event C U)) : list (action C U) :=
  match tr with
  | [] => []
  | EvAction a :: rest => a :: calledActions rest
  | _ :: rest => calledActions rest
  end.

(** The steps whose function was called, in order. *)
Fixpoint calledSteps (tr : list (Event C U)) : list (Step C U) :=
  match tr with
  | [] => []
  | EvStep s :: rest => s :: calledSteps rest
  | _ :: rest => calledSteps rest
  end.

(** The sub-tests that were opened, in order. *)
Fixpoint openedTests (tr : list (Event C U)) : list (list string) :=
  match tr with
  | [] => []
  | EvRun path :: rest => path :: openedTests rest
  | _ :: rest => openedTests rest
  end.

(** Whether the test runner was started. *)
Fixpoint runnerStarted (tr : list (Event C U)) : bool :=
  match tr with
  | [] => false
  | EvMRun :: _ => true
  | _ :: rest => runnerStarted rest
  end.

(** The errors printed by [log.Println], in order. *)
Fixpoint printedErrors (tr : list (Event C U)) : list error :=
  match tr with
  | [] => []
  | EvLogPrintln err :: rest => err :: printedErrors rest
  | _ :: rest => printedErrors rest
  end.

(** The lifecycle of a test: the actions run and the feature-level
    sub-tests opened, in order. *)
Fixpoint lifecycle (tr : list (Event C U)) : list (action C U + string) :=
  match tr with
  | [] => []
  | EvAction a :: rest => inl a :: lifecycle rest
  | EvRun [featName] :: rest => inr featName :: lifecycle rest
  | _ :: rest => lifecycle rest
  end.

End Traces.

(** ** Running actions one after the other *)

Section Threading.

Context {C U : Type}.

(** [threaded l (c, st) rs (c', st')]: when the actions of [l] run in
    order from the context [c] and the store [st], each one on the context
    that the one before it returned, they return the errors (or not) [rs]
    and end with the context [c'] and the store [st']. *)
Inductive threaded :
  list (action C U) -> Context C * Store U -> list (option error) ->
  Context C * Store U -> Prop :=
| threaded_nil s : threaded [] s [] s
| threaded_cons a l c st c' r st' rs s'' :
    run a c st = ((c', r), st') ->
    threaded l (c', st') rs s'' ->
    threaded (a :: l) (c, st) (r :: rs) s''.

(** The errors among the results. *)
Fixpoint errorsOf (rs : list (option error)) : list error :=
  match rs with
  | [] => []
  | Some err :: rest => err :: errorsOf rest
  | None :: rest => errorsOf rest
  end.

End Threading.

(** ** The lifecycle that [Test] is to follow *)

Section Schedule.

Context {C U : Type}.





End Schedule.

(** ** The cases of the test-suite of package [env]

    The table of [TestEnv_Test], with the captured variable [val] as the
    user part of the store and, for the case on context propagation, the
    integer that the context carries as the context itself. *)
Module TestSuite.

(** An unanchored expression that is a plain word matches the names that
    contain the word; [add-*] matches the names that contain [add]. *)
Fixpoint contains (word s : string) : bool :=
  String.prefix word s ||
  match s with
  | EmptyString => false
  | String _ s' => contains word s'
  end.

Definition word (w : string) : Regexp := {| MatchString := contains w |}.

(** [^keep$] and [^add-] *)
Definition exactly (w : string) : Regexp := {| MatchString := String.eqb w |}.
Definition startsWith (w : string) : Regexp :=
  {| MatchString := String.prefix w |}.

Definition machine (e : testEnv Z Z) (conf : Config) (val : Z)
  : Machine Z Z :=
  {| env := e; store := {| cfg := conf; vars := val |}; trace := [] |}.

(** A closure that updates [val] and returns its context. *)
Definition onVal (f : Z -> Z) : EnvFunc Z Z :=
  fun c st => ((c, None), {| cfg := cfg st; vars := f (vars st) |}).

Definition stepOnVal (f : Z -> Z) : StepFunc Z Z :=
  fun c st => (Returned c, {| cfg := cfg st; vars := f (vars st) |}).

(** A closure that updates the integer of its context. *)
Definition onCtx (f : Z -> Z) : EnvFunc Z Z :=
  fun c st => ((option_map f c, None), st).

Definition stepOnCtx (f : Z -> Z) : StepFunc Z Z :=
  fun c st => (Returned (option_map f c), st).

Definition failing (msg : string) : EnvFunc Z Z :=
  fun c st => ((c, Some msg), st).

(** [features.New(name).Assess(a, fn).Feature()] and its like: the steps in
    the order of the calls to the builder. *)
Definition assess (name : string) (fn : StepFunc Z Z) : Step Z Z :=
  {| sName := name; sLevel := LevelAssess; sFunc := fn |}.
Definition setup (name : string) (fn : StepFunc Z Z) : Step Z Z :=
  {| sName := name; sLevel := LevelSetup; sFunc := fn |}.
Definition teardown (name : string) (fn : StepFunc Z Z) : Step Z Z :=
  {| sName := name; sLevel := LevelTeardown; sFunc := fn |}.
Definition feature (name : string) (steps : list (Step Z Z)) : Feature Z Z :=
  {| fName := name; fLabels := ∅; fSteps := steps |}.

Definition env0 : testEnv Z Z := newTestEnv 0.

Definition valAfter (r : Outcome unit * Machine Z Z) : Z :=
  vars (store (snd r)).

Definition filterAssessment : Outcome unit * Machine Z Z :=
  Test [feature "test-feat"
          [assess "add-one" (stepOnVal (fun v => v + 1));
           assess "add-two" (stepOnVal (fun v => v + 2));
           assess "take-one" (stepOnVal (fun v => v - 1))]]
       (machine env0 (WithAssessmentRegex New (word "add")) 42).

Definition withAfterTest : Outcome unit * Machine Z Z :=
  Test [feature "test-feat" [assess "assess" (stepOnVal (fun v => v + 42))]]
       (machine
          (BeforeEachTest
             (AfterEachTest env0 [onVal (fun v => v - 20)])
             [onVal (fun _ => 44)])
          New 0).

Definition beforeAndAfterFeatures : Outcome unit * Machine Z Z :=
  Test [feature "test-feat" [assess "assess" (stepOnVal (fun v => v * 4))];
        feature "test-feat" [assess "assess" (stepOnVal (fun v => v * 4))]]
       (machine
          (AfterEachFeature
             (BeforeEachFeature env0 [onVal (fun v => v + 20)])
             [onVal (fun v => v - 20)])
          New 0).

Definition filteredFeature : Outcome unit * Machine Z Z :=
  Test [feature "test-feat-2" [assess "assess" (stepOnVal (fun _ => 43))]]
       (machine env0 (WithFeatureRegex New (word "skip-me")) 42).

Definition contextPropagation : Outcome unit * Machine Z Z :=
  Test [feature "test-feat" [assess "assess" (stepOnCtx (fun v => v + 1))]]
       (machine
          (AfterEachTest
             (BeforeEachTest {| ctx := Some 44; actions := [] |}
                [onCtx (fun v => v + 2)])
             [onCtx (fun v => v + 1)])
          New 0).

(** A feature whose steps are declared teardown first and setup last but
    one; each step appends its digit to [val]. *)
Definition digit (d : Z) : StepFunc Z Z := stepOnVal (fun v => 10 * v + d).

Definition scrambled : Feature Z Z :=
  feature "scrambled"
    [teardown "scrambled-teardown" (digit 4);
     assess "A2" (digit 2);
     setup "scrambled-setup" (digit 1);
     assess "A1" (digit 3)].

(** Two features, the first of which the filter [^keep$] skips, between
    hooks that add 20 before and take 20 after every feature. *)
Definition bracketed : testEnv Z Z :=
  AfterEachFeature
    (BeforeEachFeature env0 [onVal (fun v => v + 20)])
    [onVal (fun v => v - 20)].

Definition skipThenKeep : list (Feature Z Z) :=
  [feature "skip" [assess "assess" (stepOnVal (fun v => v * 4))];
   feature "keep" [assess "assess" (stepOnVal (fun v => v * 4))]].


Definition keepOnly : Machine Z Z :=
  machine bracketed (WithFeatureRegex New (exactly "keep")) 0.

(** A feature with one assessment, in an environment whose only hook, of
    the given role, fails. *)
Definition hookFails (r : actionRole) : Outcome unit * Machine Z Z :=
  Test [feature "feat" [assess "assess" (stepOnVal (fun v => v + 1))]]
       (machine (register r env0 [failing "boom"]) New 0).

(** The feature of the case "filter assessment", under the filter
    [^add-]. *)
Definition addAndTake : Feature Z Z :=
  feature "test-feat"
    [assess "add-one" (stepOnVal (fun v => v + 1));
     assess "add-two" (stepOnVal (fun v => v + 2));
     assess "take-one" (stepOnVal (fun v => v - 1))].

Definition addOnly : Machine Z Z :=
  machine env0 (WithAssessmentRegex New (startsWith "add-")) 42.

(** A suite: two Setup actions, a Finish action that fails and one that
    does not; the runner runs one test on one feature and reports whether
    it completed. *)
Definition provision : action Z Z :=
  {| role := roleSetup; funcs := [onVal (fun v => v + 1)] |}.
Definition announce : action Z Z :=
  {| role := roleSetup; funcs := [onCtx (fun v => v + 1)] |}.
Definition noCluster : action Z Z :=
  {| role := roleSetup; funcs := [failing "no cluster"] |}.
Definition cleanup : action Z Z :=
  {| role := roleFinish; funcs := [failing "cleanup failed"] |}.
Definition report : action Z Z :=
  {| role := roleFinish; funcs := [onVal (fun v => v * 2)] |}.

Definition suiteEnv : testEnv Z Z :=
  {| ctx := Some 0; actions := [provision; cleanup; announce; report] |}.

Definition brokenSuiteEnv : testEnv Z Z :=
  {| ctx := Some 0; actions := [provision; noCluster; announce; report] |}.

Definition runner : Runner Z Z :=
  fun m =>
    let r := Test [feature "test-feat"
                     [assess "assess" (stepOnVal (fun v => v + 42))]] m in
    (match fst r with Done _ => 0 | Stopped _ => 1 end, snd r).



(** The message of the last [t.Fatalf] of a trace. *)
Definition fatalMessage (r : Outcome unit * Machine Z Z) : option string :=
  match last (trace (snd r)) with
  | Some (EvFatalf msg) => Some msg
  | _ => None
  end.

End TestSuite.

(** ** Sequences of registration calls *)

Section Registrations.

Context {C U : Type}.

(** A registration call: the method, named by its role, and its arguments. *)
Definition Registration : Type := (actionRole * list (EnvFunc C U))%type.

Definition call (e : testEnv C U) (reg : Registration) : testEnv C U :=
  match fst reg with
  | roleSetup => Setup e (snd reg)
  | roleBeforeTest => BeforeEachTest e (snd reg)
  | roleBeforeFeature => BeforeEachFeature e (snd reg)
  | roleAfterFeature => AfterEachFeature e (snd reg)
  | roleAfterTest => AfterEachTest e (snd reg)
  | roleFinish => Finish e (snd reg)
  end.

(** The actions that a sequence of calls registers under a role: one for
    each call of that role that passes at least one function. *)
Fixpoint registeredUnder (r : actionRole) (regs : list Registration)
  : list (action C U) :=
  match regs with
  | [] => []
  | (r', fs) :: rest =>
      if decide (r' = r)
      then match fs with
           | [] => registeredUnder r rest
           | _ :: _ => {| role := r; funcs := fs |} :: registeredUnder r rest
           end
      else registeredUnder r rest
  end.

End Registrations.

Arguments Registration C U : clear implicits.

(** ** Properties of step functions that the statements refer to *)

Section StepProperties.

Context {C U : Type}.

(** The step function returns on every input: it never ends the goroutine
    of its test. *)
Definition returns (s : Step C U) : Prop :=
  forall c st, exists c', fst (sFunc s c st) = Returned c'.

(** The step function leaves the assessment filter of the configuration
    as it found it. *)
Definition keepsAssessmentRegex (s : Step C U) : Prop :=
  forall c st,
    assessmentRegex (cfg (snd (sFunc s c st))) = assessmentRegex (cfg st).

(** A step that the assessment filter [re] lets through: every step that is
    not an assessment, and the assessments whose name matches. *)
Definition selected (re : Regexp) (s : Step C U) : Prop :=
  sLevel s = LevelAssess -> MatchString re (sName s) = true.

#[global] Instance selected_dec re s : Decision (selected re s).
Proof. unfold selected. apply _. Defined.

(** The feature without the assessments that [re] filters out. *)
Definition withoutUnmatched (re : Regexp) (f : Feature C U) : Feature C U :=
  {| fName := fName f; fLabels := fLabels f;
     fSteps := filter (selected re) (fSteps f) |}.

(** The functions of the steps of [steps] applied in turn, each to the
    context and the store that the one before has left: what calling these
    steps, in this order, leaves behind.  A step that ends the goroutine of
    its test has changed the store by then, and the context stays the one
    it was called with: the assignment [ctx = step.Func()(ctx, t, e.cfg)]
    is not reached. *)
Fixpoint applied (steps : list (Step C U)) (c : Context C) (st : Store U)
  : Context C * Store U :=
  match steps with
  | [] => (c, st)
  | s :: rest =>
      match sFunc s c st with
      | (Returned c', st') => applied rest c' st'
      | (Goexit, st') => applied rest c st'
      end
  end.

End StepProperties.
From stdpp Require Import pretty.

Local Close Scope Z_scope.
Local Open Scope Z_scope.
Local Close Scope list_scope.
Local Open Scope list_scope.


(** * Further definitions

    The rest of package [env] and of [envconf], the provider registry of
    package [framework] and the kind provider. *)

(** ** Behaviours of steps and actions that the statements refer to *)

Section Behaviours.

Context {C U : Type}.

(** The step function ends the goroutine of its test on every input, as
    one that finds its precondition broken and calls [t.Fatal]. *)
Definition exits (s : Step C U) : Prop :=
  forall c st, fst (sFunc s c st) = Goexit.

End Behaviours.

(** ** More cases *)
Module MoreCases.

Import TestSuite.

(** A step that notes its call in [val] and then fails its test for good. *)
Definition fatal : StepFunc Z Z :=
  fun c st => (Goexit, {| cfg := cfg st; vars := vars st + 100 |}).

Definition brokenSetup : Feature Z Z :=
  feature "broken"
    [setup "first" (digit 1);
     assess "assess" (digit 2);
     setup "second" fatal;
     setup "third" (digit 3);
     teardown "teardown" (digit 4)].


End MoreCases.

(** ** Names made by RandomName *)

(** The digits of [hextable]. *)
Definition isHexDigit (ch : ascii) : bool :=
  match String.index 0 (String ch EmptyString) hextable with
  | Some _ => true
  | None => false
  end.

Fixpoint allHex (s : string) : bool :=
  match s with
  | EmptyString => true
  | String ch rest => isHexDigit ch && allHex rest
  end.

(** The value of a digit of [hextable]. *)
Definition hexValue (ch : ascii) : N :=
  match String.index 0 (String ch EmptyString) hextable with
  | Some i => N.of_nat i
  | None => 0%N
  end.

(** [WithRandomNamespace]: [c.namespace = randNS()]. *)
Definition WithRandomNamespace (rnd : nat -> Byte.byte) (c : Config)
  : option Config :=
  match randNS rnd with
  | Some ns => Some (WithNamespace c ns)
  | None => None
  end.

(** ** The client of a configuration *)

Section ClientOfConfig.

(** [KClient]: the non-nil values of [klient.Client]. *)
Context {KClient : Type}.

(** [klient.NewWithKubeConfigFile], of the resource layer: what it answers
    for a path is all that [Client] uses of it.  A client that it returns
    without an error is not nil. *)
Variable NewWithKubeConfigFile : string -> KClient + error.

(** [envconf.Config] with the field [client] that [Config] leaves out. *)
Record ClientConfig := { settings : Config; client : option KClient }.

(** [WithClient]; the argument may be nil. *)
Definition WithClient (cc : ClientConfig) (cl : option KClient) : ClientConfig :=
  {| settings := settings cc; client := cl |}.

(** A setter of [Config], on the whole struct. *)
Definition onSettings (set : Config -> Config) (cc : ClientConfig)
  : ClientConfig :=
  {| settings := set (settings cc); client := client cc |}.

(** [Client]: the result, the configuration afterwards and the paths handed
    to [klient.NewWithKubeConfigFile] on the way. *)
Definition Client (cc : ClientConfig)
  : (KClient + error) * ClientConfig * list string :=
  match client cc with
  | Some cl => (inl cl, cc, [])
  | None =>
      if String.eqb (kubeconfig (settings cc)) ""
      then (inr "kubeconfig not set", cc, [])
      else
        match NewWithKubeConfigFile (kubeconfig (settings cc)) with
        | inr err =>
            (inr ("envconfig: client failed: " +:+ err), cc,
             [kubeconfig (settings cc)])
        | inl cl =>
            (inl cl, {| settings := settings cc; client := Some cl |},
             [kubeconfig (settings cc)])
        end
  end.

(** A use of the configuration after it has been made: one of the
    setters, [WithClient] among them, or a call to [Client]. *)
Inductive ConfigUse :=
| UseWithKubeconfigFile (kubecfg : string)
| UseWithClient (cl : option KClient)
| UseWithNamespace (ns : string)
| UseWithAssessmentRegex (re : Regexp)
| UseWithFeatureRegex (re : Regexp)
| UseWithLabels (lbls : gmap string string)
| UseClient.

Definition isWithClient (u : ConfigUse) : bool :=
  match u with
  | UseWithClient _ => true
  | _ => false
  end.

(** The uses in turn: the configuration at the end, what the calls to
    [Client] returned and the paths handed to the constructor. *)
Fixpoint useConfig (uses : list ConfigUse) (cc : ClientConfig)
  : ClientConfig * list (KClient + error) * list string :=
  match uses with
  | [] => (cc, [], [])
  | UseClient :: rest =>
      match Client cc with
      | (r, cc', paths) =>
          match useConfig rest cc' with
          | (cc'', rs, paths') => (cc'', r :: rs, paths ++ paths')
          end
      end
  | UseWithClient cl :: rest => useConfig rest (WithClient cc cl)
  | u :: rest =>
      useConfig rest
        (onSettings
           (fun c =>
              match u with
              | UseWithKubeconfigFile k => WithKubeconfigFile c k
              | UseWithNamespace ns => WithNamespace c ns
              | UseWithAssessmentRegex re => WithAssessmentRegex c re
              | UseWithFeatureRegex re => WithFeatureRegex c re
              | UseWithLabels lbls => WithLabels c lbls
              | UseWithClient _ | UseClient => c
              end) cc)
  end.

End ClientOfConfig.

Arguments ClientConfig KClient : clear implicits.
Arguments ConfigUse KClient : clear implicits.

(** ** Package framework: the registry of providers *)

Section Providers.

(** [types.ClusterProviderGenerator], a function that makes a provider:
    the registry stores and returns it and never calls it. *)
Context {G : Type}.

(** [providerRegistry], once the [init] of the package has made the map:
    empty then. *)
Definition providerRegistry : gmap string G := ∅.

(** [RegisterProvider]: panics when the name is taken. *)
Definition RegisterProvider (providerName : string) (f : G)
  (registry : gmap string G) : Outcome (gmap string G) :=
  match registry !! providerName with
  | Some _ =>
      Stopped (StopPanic ("a provider with name " +:+ providerName
                          +:+ " is already registered. Duplicate registering is not allowed"))
  | None => Done (<[providerName := f]> registry)
  end.

(** [GetProviderGenerator]: panics when the name is not registered. *)
Definition GetProviderGenerator (providerName : string)
  (registry : gmap string G) : Outcome G :=
  match registry !! providerName with
  | None =>
      Stopped (StopPanic ("no provider with name " +:+ providerName
                          +:+ " is registered"))
  | Some f => Done f
  end.

(** Registrations in turn, as the [init] functions of the providers make
    them; the first panic ends the program. *)
Fixpoint registerAll (regs : list (string * G)) (registry : gmap string G)
  : Outcome (gmap string G) :=
  match regs with
  | [] => Done registry
  | (providerName, f) :: rest =>
      match RegisterProvider providerName f registry with
      | Done registry' => registerAll rest registry'
      | Stopped x => Stopped x
      end
  end.

End Providers.

(** ** Package framework: the options of a cluster *)

(** Modelled from the spec: [types.ClusterConfig] is declared in package
    [framework/types], which is not embedded here, and the design document
    leaves the provider to its interface; the fields are the four that the
    options and the kind provider read and write. *)
Record ClusterConfig := {
  Name : string;
  K8SVersion : string;
  InitConfig : string;
  Args : list string
}.

(** [types.CreateOptions]: [func(config *types.ClusterConfig)] *)
Definition CreateOptions : Type := ClusterConfig -> ClusterConfig.

Definition WithKubernetesVersion (version : string) : CreateOptions :=
  fun config =>
    {| Name := Name config; K8SVersion := version;
       InitConfig := InitConfig config; Args := Args config |}.

Definition WithInitConfig (initConfig : string) : CreateOptions :=
  fun config =>
    {| Name := Name config; K8SVersion := K8SVersion config;
       InitConfig := initConfig; Args := Args config |}.

Definition WithArgs (args : list string) : CreateOptions :=
  fun config =>
    {| Name := Name config; K8SVersion := K8SVersion config;
       InitConfig := InitConfig config; Args := Args config ++ args |}.

Definition WithName (name : string) : CreateOptions :=
  fun config =>
    {| Name := name; K8SVersion := K8SVersion config;
       InitConfig := InitConfig config; Args := Args config |}.

(** [for _, opt := range opts { opt(k.cfg) }], the way a provider applies
    the options it is given. *)
Definition applyOptions (opts : list CreateOptions) (config : ClusterConfig)
  : ClusterConfig :=
  fold_left (fun c opt => opt c) opts config.

(** A call to one of the four options. *)
Inductive OptionCall :=
| CallWithKubernetesVersion (version : string)
| CallWithInitConfig (initConfig : string)
| CallWithArgs (args : list string)
| CallWithName (name : string).

Definition optionOf (call : OptionCall) : CreateOptions :=
  match call with
  | CallWithKubernetesVersion version => WithKubernetesVersion version
  | CallWithInitConfig initConfig => WithInitConfig initConfig
  | CallWithArgs args => WithArgs args
  | CallWithName name => WithName name
  end.

(** What a sequence of calls says about each field: all the arguments, in
    order; the versions, the init configurations and the names, in order. *)
Definition argsIn (calls : list OptionCall) : list string :=
  flat_map (fun call => match call with CallWithArgs args => args | _ => [] end)
    calls.

Definition versionsIn (calls : list OptionCall) : list string :=
  flat_map (fun call => match call with
                        | CallWithKubernetesVersion v => [v]
                        | _ => []
                        end) calls.

Definition initConfigsIn (calls : list OptionCall) : list string :=
  flat_map (fun call => match call with CallWithInitConfig i => [i] | _ => [] end)
    calls.

Definition namesIn (calls : list OptionCall) : list string :=
  flat_map (fun call => match call with CallWithName n => [n] | _ => [] end)
    calls.

(** ** strings.Split and strings.Join *)

Definition newline : ascii := ascii_of_nat 10.

(** [strings.Split(s, "\n")]: the pieces of [s] between the newlines; one
    piece more than there are newlines, so one empty piece for the empty
    string. *)
Fixpoint splitLines (s : string) : list string :=
  match s with
  | EmptyString => [EmptyString]
  | String ch rest =>
      if Ascii.eqb ch newline
      then EmptyString :: splitLines rest
      else match splitLines rest with
           | piece :: pieces => String ch piece :: pieces
           | [] => [String ch EmptyString]
           end
  end.

(** [strings.Join(elems, sep)] *)
Fixpoint Join (elems : list string) (sep : string) : string :=
  match elems with
  | [] => EmptyString
  | [e] => e
  | e :: rest => e +:+ sep +:+ Join rest sep
  end.

Fixpoint hasNewline (s : string) : bool :=
  match s with
  | EmptyString => false
  | String ch rest => Ascii.eqb ch newline || hasNewline rest
  end.

(** The loop of [clusterExists] over the pieces:
    [for _, c := range pieces { if c == name { return true } }; return false] *)
Fixpoint listed (pieces : list string) (name : string) : bool :=
  match pieces with
  | [] => false
  | c :: rest => if String.eqb c name then true else listed rest name
  end.

(** ** The kind provider *)

(** What the provider reads off a finished [*exec.Proc] of gexe. *)
Record Proc := {
  pErr : option error;      (* p.Err() *)
  pResult : string;         (* p.Result() *)
  pErrAfterResult : option error;
                            (* p.Err() once p.Result() has been called:
                               reading the result replaces the error *)
  pIsSuccess : bool;        (* p.IsSuccess() *)
  pExitCode : Z             (* p.ExitCode() *)
}.

(** A process started with [StartProc], its output read with
    [stdout.ReadFrom(p.StdOut())] and then waited for. *)
Record Started := {
  sErr : option error;      (* p.Err() right after StartProc *)
  sReadErr : option error;  (* the error of ReadFrom *)
  sStdout : string;         (* what ReadFrom has put in the buffer *)
  sWaited : Proc            (* p.Wait() *)
}.

(** The machine on which the provider runs, through gexe and the standard
    library: each operation answers in a state [W] of the machine and
    leaves a new one. *)
Record System (W : Type) := {
  sysRun : string -> W -> string * W;                (* executor.Run *)
  sysRunProc : string -> W -> Proc * W;              (* executor.RunProc *)
  sysStartProc : string -> W -> Started * W;         (* executor.StartProc ... Wait *)
  sysAvail : string -> W -> string;                  (* executor.Prog().Avail *)
  sysSetEnv : string -> string -> W -> W;            (* executor.SetEnv *)
  sysTempFile : string -> W -> (string + error) * W; (* ioutil.TempFile("", pattern), file.Name() *)
  sysCopy : string -> string -> W -> (Z * option error) * W; (* io.Copy(file, &stdout) *)
  sysRemoveAll : string -> W -> option error * W     (* os.RemoveAll *)
}.
Arguments sysRun {W} _ _ _.
Arguments sysRunProc {W} _ _ _.
Arguments sysStartProc {W} _ _ _.
Arguments sysAvail {W} _ _ _.
Arguments sysSetEnv {W} _ _ _ _.
Arguments sysTempFile {W} _ _ _.
Arguments sysCopy {W} _ _ _ _.
Arguments sysRemoveAll {W} _ _ _.

(** [kindCluster]; the executor is part of the machine, and [fetchOnce]
    is the [sync.Once], done or not.  The provider logs with klog at
    verbosity 4; the log lines are left out, they change nothing of what
    the methods do and return. *)
Record kindCluster := {
  kcfg : ClusterConfig;
  kubeConfig : string;
  fetchOnce : bool
}.

(** [NewKindClusterProvider] *)
Definition NewKindClusterProvider : kindCluster :=
  {| kcfg := {| Name := ""; K8SVersion := ""; InitConfig := ""; Args := [] |};
     kubeConfig := ""; fetchOnce := false |}.

(** [%w] and [%s] print an error by its message, and a nil error as Go
    prints a missing operand of a verb. *)
Definition showError (verb : string) (err : option error) : string :=
  match err with
  | Some e => e
  | None => "%!" +:+ verb +:+ "(<nil>)"
  end.

(** What a call of [KubeConfig] answers once the fetch has been made. *)
Definition stored (k : kindCluster) : string + error :=
  if String.eqb (kubeConfig k) ""
  then inr ("failed to find kubeconfig file for cluster " +:+ Name (kcfg k))
  else inl (kubeConfig k).

Section Kind.

Context {W : Type} (sys : System W).

(** The provider, the machine, and the commands handed to the executor so
    far. *)
Record KState := {
  provider : kindCluster;
  world : W;
  issued : list string
}.

Definition withWorld (s : KState) (cmd : list string) (w : W) : KState :=
  {| provider := provider s; world := w; issued := issued s ++ cmd |}.

Definition withProvider (s : KState) (k : kindCluster) : KState :=
  {| provider := k; world := world s; issued := issued s |}.

Definition Run_ (cmd : string) (s : KState) : string * KState :=
  match sysRun sys cmd (world s) with
  | (out, w) => (out, withWorld s [cmd] w)
  end.

Definition RunProc (cmd : string) (s : KState) : Proc * KState :=
  match sysRunProc sys cmd (world s) with
  | (p, w) => (p, withWorld s [cmd] w)
  end.

Definition StartProc (cmd : string) (s : KState) : Started * KState :=
  match sysStartProc sys cmd (world s) with
  | (p, w) => (p, withWorld s [cmd] w)
  end.

Definition Avail (prog : string) (s : KState) : string :=
  sysAvail sys prog (world s).

Definition saveKubeConfig (s : KState) : option error * KState :=
  let name := Name (kcfg (provider s)) in
  let kubecfg := name +:+ "-kubecfg" in
  match StartProc ("kind get kubeconfig --name " +:+ name) s with
  | (p, s1) =>
      match sErr p with
      | Some e => (Some ("kind get kubeconfig: " +:+ e), s1)
      | None =>
          match sReadErr p with
          | Some e => (Some ("kind kubeconfig stdout bytes: " +:+ e), s1)
          | None =>
              match pErr (sWaited p) with
              | Some _ =>
                  (* the arguments of Errorf in turn: p.Result(), then p.Err() *)
                  (Some ("kind get kubeconfig: " +:+ pResult (sWaited p)
                         +:+ ": " +:+ showError "w" (pErrAfterResult (sWaited p))),
                   s1)
              | None =>
                  match sysTempFile sys ("kind-cluser-" +:+ kubecfg) (world s1) with
                  | (inr e, w2) =>
                      (Some ("kind kubeconfig file: " +:+ e), withWorld s1 [] w2)
                  | (inl file, w2) =>
                      let k' := {| kcfg := kcfg (provider s1);
                                   kubeConfig := file;
                                   fetchOnce := fetchOnce (provider s1) |} in
                      match sysCopy sys file (sStdout p) w2 with
                      | ((n, err), w3) =>
                          let s3 := withProvider (withWorld s1 [] w3) k' in
                          if (n =? 0) || (match err with Some _ => true | None => false end)
                          then (Some ("kind kubecfg file: bytes copied: "
                                      +:+ pretty n +:+ ": " +:+ showError "w" err
                                      +:+ "]"), s3)
                          else (None, s3)
                      end
                  end
              end
          end
      end
  end.

Definition clusterExists (name : string) (s : KState)
  : (string * bool) * KState :=
  match Run_ "kind get clusters" s with
  | (clusters, s1) => ((clusters, listed (splitLines clusters) name), s1)
  end.

Definition installKind (s : KState) : option error * KState :=
  let version := K8SVersion (kcfg (provider s)) in
  match RunProc ("go install sigs.k8s.io/kind@" +:+ version) s with
  | (p, s1) =>
      match pErr p with
      | Some e => (Some ("failed to install kind: " +:+ e), s1)
      | None =>
          if negb (pIsSuccess p) || negb (pExitCode p =? 0)
          then (Some ("failed to install kind: " +:+ pResult p), s1)
          else
            (* PATH may already be set to include $GOPATH/bin *)
            if negb (String.eqb (Avail "kind" s1) "")
            then (None, s1)
            else
              match RunProc "ls $GOPATH/bin" s1 with
              | (p2, s2) =>
                  match pErr p2 with
                  | Some e => (Some ("failed to install kind: " +:+ e), s2)
                  | None =>
                      match RunProc "echo $PATH:$GOPATH/bin" s2 with
                      | (p3, s3) =>
                          match pErr p3 with
                          | Some e => (Some ("failed to install kind: " +:+ e), s3)
                          | None =>
                              let s4 := withWorld s3 []
                                          (sysSetEnv sys "PATH" (pResult p3) (world s3)) in
                              if negb (String.eqb (Avail "kind" s4) "")
                              then (None, s4)
                              else (Some "kind not available even after installation", s4)
                          end
                      end
                  end
              end
      end
  end.

Definition installKindIfRequired (s : KState) : option error * KState :=
  if String.eqb (Avail "kind" s) ""
  then installKind s
  else (None, s).

(** [k.fetchOnce.Do(func() { err = k.saveKubeConfig() })] and what follows
    it. *)
Definition KubeConfig (s : KState) : (string + error) * KState :=
  match (if fetchOnce (provider s)
         then (None, s)
         else match saveKubeConfig s with
              | (err, s1) =>
                  (err, withProvider s1
                          {| kcfg := kcfg (provider s1);
                             kubeConfig := kubeConfig (provider s1);
                             fetchOnce := true |})
              end) with
  | (Some e, s1) => (inr e, s1)
  | (None, s1) =>
      if String.eqb (kubeConfig (provider s1)) ""
      then (inr ("failed to find kubeconfig file for cluster "
                 +:+ Name (kcfg (provider s1))), s1)
      else (inl (kubeConfig (provider s1)), s1)
  end.

Definition createCommand (config : ClusterConfig) : string :=
  let command := "kind create cluster --name " +:+ Name config in
  match Args config with
  | [] => command
  | _ :: _ => command +:+ " " +:+ Join (Args config) " "
  end.

Definition Create (opts : list CreateOptions) (s : KState)
  : (string + error) * KState :=
  let s0 := withProvider s
              {| kcfg := applyOptions opts (kcfg (provider s));
                 kubeConfig := kubeConfig (provider s);
                 fetchOnce := fetchOnce (provider s) |} in
  match installKindIfRequired s0 with
  | (Some e, s1) => (inr e, s1)
  | (None, s1) =>
      let name := Name (kcfg (provider s1)) in
      match clusterExists name s1 with
      | ((_, true), s2) => KubeConfig s2
      | ((_, false), s2) =>
          match RunProc (createCommand (kcfg (provider s2))) s2 with
          | (p, s3) =>
              match pErr p with
              | Some e =>
                  (inr ("failed to create kind cluster: " +:+ e +:+ " : "
                        +:+ pResult p), s3)
              | None =>
                  match clusterExists name s3 with
                  | ((clusters, false), s4) =>
                      (inr ("kind Cluster.Create: cluster " +:+ name
                            +:+ " still not in 'cluster list' after creation: "
                            +:+ clusters), s4)
                  | ((_, true), s4) => KubeConfig s4
                  end
              end
          end
      end
  end.

Definition Destroy (s : KState) : option error * KState :=
  match installKindIfRequired s with
  | (Some e, s1) => (Some e, s1)
  | (None, s1) =>
      match RunProc ("kind delete cluster --name " +:+ Name (kcfg (provider s1))) s1 with
      | (p, s2) =>
          match pErr p with
          | Some e =>
              (Some ("kind: delete cluster failed: " +:+ e +:+ ": " +:+ pResult p), s2)
          | None =>
              match sysRemoveAll sys (kubeConfig (provider s2)) (world s2) with
              | (Some e, w3) =>
                  (Some ("kind: remove kubefconfig failed: " +:+ e),
                   withWorld s2 [] w3)
              | (None, w3) => (None, withWorld s2 [] w3)
              end
          end
      end
  end.

Definition KubeCtx (k : kindCluster) : string := "kind-" +:+ Name (kcfg k).

Definition LoadImage (image : string) (s : KState) : option error * KState :=
  match RunProc ("kind load docker-image --name " +:+ Name (kcfg (provider s))
                 +:+ " " +:+ image) s with
  | (p, s1) =>
      match pErr p with
      | Some e =>
          (Some ("kind: load docker-image failed: " +:+ e +:+ ": " +:+ pResult p), s1)
      | None => (None, s1)
      end
  end.

Definition LoadImageArchive (archive : string) (s : KState)
  : option error * KState :=
  match RunProc ("kind load image-archive --name " +:+ Name (kcfg (provider s))
                 +:+ " " +:+ archive) s with
  | (p, s1) =>
      match pErr p with
      | Some e =>
          (Some ("kind: load image-archive failed: " +:+ e +:+ ": " +:+ pResult p), s1)
      | None => (None, s1)
      end
  end.

End Kind.

Arguments KState W : clear implicits.

(** ** Cases for the client, the registry and the kind provider *)

Module ProviderCases.

(** A generator of bytes that differ from one another. *)
Definition counting (i : nat) : Byte.byte :=
  match Byte.of_nat (i mod 256) with
  | Some b => b
  | None => Byte.x00
  end.

(** The same generator with another byte outside the first sixteen. *)
Definition countingThenZero (i : nat) : Byte.byte :=
  if (i <? 16)%nat then counting i else Byte.x00.

(** A constructor of clients: a client is the length of the path of its
    kubeconfig file, and one path does not exist. *)
Definition fileClient (path : string) : nat + error :=
  if String.eqb path "/missing"
  then inr "stat /missing: no such file or directory"
  else inl (String.length path).

Definition unset : ClientConfig nat := {| settings := New; client := None |}.

Definition homeConfig : ClientConfig nat :=
  onSettings (fun c => WithKubeconfigFile c "/home/dev/.kube/config") unset.

Definition missingConfig : ClientConfig nat :=
  onSettings (fun c => WithKubeconfigFile c "/missing") unset.

(** A machine for the kind provider: the clusters that exist, whether
    [kind] is installed, and whether the disk takes a copy. *)
Record Host := {
  hostClusters : list string;
  hostKind : bool;
  hostDiskFull : bool
}.

Definition finished : Proc :=
  {| pErr := None; pResult := ""; pErrAfterResult := None;
     pIsSuccess := true; pExitCode := 0 |}.

Definition nameIn (prefix cmd : string) : string :=
  substring (String.length prefix) (String.length cmd - String.length prefix) cmd.

Definition host : System Host :=
  {| sysRun := fun cmd w =>
       if String.eqb cmd "kind get clusters"
       then (Join (hostClusters w) (String newline EmptyString), w)
       else ("", w);
     sysRunProc := fun cmd w =>
       if String.prefix "kind create cluster --name " cmd
       then (finished,
             {| hostClusters := hostClusters w
                                ++ [nameIn "kind create cluster --name " cmd];
                hostKind := hostKind w; hostDiskFull := hostDiskFull w |})
       else if String.prefix "kind delete cluster --name " cmd
       then (finished,
             {| hostClusters :=
                  filter (fun c => c <> nameIn "kind delete cluster --name " cmd)
                    (hostClusters w);
                hostKind := hostKind w; hostDiskFull := hostDiskFull w |})
       else if String.prefix "go install sigs.k8s.io/kind@" cmd
       then (finished,
             {| hostClusters := hostClusters w; hostKind := true;
                hostDiskFull := hostDiskFull w |})
       else (finished, w);
     sysStartProc := fun cmd w =>
       ({| sErr := None; sReadErr := None; sStdout := "apiVersion: v1";
           sWaited := finished |}, w);
     sysAvail := fun prog w =>
       if hostKind w then "/usr/local/bin/" +:+ prog else "";
     sysSetEnv := fun _ _ w => w;
     sysTempFile := fun pattern w => (inl ("/tmp/" +:+ pattern +:+ "42"), w);
     sysCopy := fun file content w =>
       if hostDiskFull w
       then ((0, Some "no space left on device"), w)
       else ((Z.of_nat (String.length content), None), w);
     sysRemoveAll := fun _ w => (None, w) |}.

(** A new provider on a machine. *)
Definition started (w : Host) : KState Host :=
  {| provider := NewKindClusterProvider; world := w; issued := [] |}.

Definition twoClusters : Host :=
  {| hostClusters := ["alpha"; "beta"]; hostKind := true; hostDiskFull := false |}.

Definition noKind : Host :=
  {| hostClusters := []; hostKind := false; hostDiskFull := false |}.

Definition noClusters : Host :=
  {| hostClusters := []; hostKind := true; hostDiskFull := false |}.

Definition fullDisk : Host :=
  {| hostClusters := ["alpha"]; hostKind := true; hostDiskFull := true |}.

End ProviderCases.
(** * Properties *)

(** ** The cases of the test-suite, evaluated *)

Section TestSuiteCases.

Import TestSuite.

Example filterAssessment_45 : valAfter filterAssessment = 45.
Proof. reflexivity. Qed.

Example withAfterTest_66 : valAfter withAfterTest = 66.
Proof. reflexivity. Qed.

Example beforeAndAfterFeatures_300 : valAfter beforeAndAfterFeatures = 300.
Proof. reflexivity. Qed.

Example filteredFeature_42 : valAfter filteredFeature = 42.
Proof. reflexivity. Qed.

Example contextPropagation_48 :
  ctx (env (snd contextPropagation)) = Some 48.
Proof. reflexivity. Qed.

End TestSuiteCases.


(** ** RandomName *)

Lemma string_length_app (s1 s2 : string) :
  String.length (s1 +:+ s2) = (String.length s1 + String.length s2)%nat.
Proof. induction s1 as [|a s1 IH]; simpl; [reflexivity | now rewrite IH]. Qed.

Lemma EncodeToString_length (src : list Byte.byte) :
  String.length (EncodeToString src) = (2 * length src)%nat.
Proof. induction src as [|v rest IH]; simpl; [reflexivity | rewrite IH; lia]. Qed.

Lemma randRead_length (rnd : nat -> Byte.byte) (n : Z) :
  length (randRead rnd n) = Z.to_nat n.
Proof. unfold randRead. now rewrite length_map, length_seq. Qed.

(** The first [n] bytes of a string that has at least [n] of them. *)
Lemma substring_prefix (n : nat) (s : string) :
  (n <= String.length s)%nat ->
  String.length (String.substring 0 n s) = n /\
  exists rest, s = String.substring 0 n s +:+ rest.
Proof.
  revert s. induction n as [|n IH]; intros s Hn.
  - destruct s; simpl; split; try reflexivity; eexists; reflexivity.
  - destruct s as [|a s]; simpl in Hn; [lia|].
    destruct (IH s ltac:(lia)) as [Hlen [rest Hrest]].
    simpl. split; [now rewrite Hlen|].
    exists rest. change (String a s = String a (String.substring 0 n s +:+ rest)).
    now rewrite <- Hrest.
Qed.

Lemma sliceTo_spec (s : string) (n : Z) :
  0 <= n <= len s ->
  exists name rest, sliceTo s n = Some name /\ len name = n /\ s = name +:+ rest.
Proof.
  intros [H0 Hn]. unfold sliceTo.
  rewrite (proj2 (Z.leb_le 0 n) H0), (proj2 (Z.leb_le n (len s)) Hn). simpl.
  destruct (substring_prefix (Z.to_nat n) s) as [Hlen [rest Hrest]].
  { unfold len in Hn. lia. }
  exists (String.substring 0 (Z.to_nat n) s), rest.
  split; [reflexivity|]. split; [unfold len; rewrite Hlen; lia | exact Hrest].
Qed.

Lemma allocates_true (size : Z) :
  0 <= size <= maxAlloc -> allocates size = true.
Proof.
  intros [H0 H1]. unfold allocates.
  now rewrite (proj2 (Z.leb_le 0 size) H0), (proj2 (Z.leb_le size maxAlloc) H1).
Qed.

Lemma allocates_false (size : Z) : maxAlloc < size -> allocates size = false.
Proof.
  intros H. unfold allocates.
  rewrite (proj2 (Z.leb_gt size maxAlloc) H). apply andb_false_r.
Qed.

(** C9.  [RandomName(prefix, n)], with the default length 32 taking the place
    of [n = 0]: when the prefix has at least that many bytes it is returned
    as it is.  Otherwise, as long as the [len(prefix) + 1 + 2 * n] bytes of
    [prefix + "-" + hex(p)] are within the limit of the allocator, the
    result has exactly that many bytes and is the beginning of
    [prefix + "-" + hex(p)], where [p] holds that many random bytes, and
    the slice expression does not panic; beyond the limit the call
    panics. *)
Theorem RandomName_length (rnd : nat -> Byte.byte) (prefix : string) (n : Z) :
  let n' := if n =? 0 then 32 else n in
  (n' <= len prefix -> RandomName rnd prefix n = Some prefix) /\
  (len prefix < n' ->
   len prefix + 1 + 2 * n' <= maxAlloc ->
   exists name rest,
     RandomName rnd prefix n = Some name /\
     len name = n' /\
     prefix +:+ "-" +:+ EncodeToString (randRead rnd n') = name +:+ rest /\
     Z.of_nat (length (randRead rnd n')) = n') /\
  (len prefix < n' ->
   maxAlloc < len prefix + 1 + 2 * n' ->
   RandomName rnd prefix n = None).
Proof.
  intros n'. unfold RandomName. fold n'. split; [|split].
  - intros H. now rewrite (proj2 (Z.geb_le (len prefix) n') H).
  - intros H Hmax.
    destruct (len prefix >=? n') eqn:E.
    { apply Z.geb_le in E. lia. }
    assert (H0 : 0 < n') by (unfold len in H; lia).
    assert (Hp : 0 <= len prefix) by (unfold len; lia).
    rewrite !allocates_true by lia. simpl negb. cbv iota.
    destruct (sliceTo_spec (prefix +:+ "-" +:+ EncodeToString (randRead rnd n')) n')
      as (name & rest & Hs & Hl & Happ).
    { unfold len. rewrite !string_length_app, EncodeToString_length, randRead_length.
      simpl String.length. lia. }
    exists name, rest. repeat split; try assumption.
    rewrite randRead_length. lia.
  - intros H Hmax.
    destruct (len prefix >=? n') eqn:E.
    { apply Z.geb_le in E. lia. }
    destruct (allocates n'); [|reflexivity].
    destruct (allocates (2 * n')); [|reflexivity].
    now rewrite allocates_false.
Qed.

(** [RandomName("ns", 4)], as the example suites call it. *)
Lemma RandomName_length_witness :
  len "ns" < 4 /\
  exists name rest,
    RandomName (fun _ => Byte.xab) "ns" 4 = Some name /\
    len name = 4 /\
    "ns" +:+ "-" +:+ EncodeToString (randRead (fun _ => Byte.xab) 4)
      = name +:+ rest /\
    Z.of_nat (length (randRead (fun _ => Byte.xab) 4)) = 4.
Proof.
  split; [reflexivity|].
  apply (proj1 (proj2 (RandomName_length (fun _ => Byte.xab) "ns" 4))).
  - reflexivity.
  - vm_compute. discriminate.
Defined.

(** [RandomName("x", 1<<62)]: no name of that length, the call panics in
    [make([]byte, n)]. *)
Lemma RandomName_length_counterexample :
  RandomName (fun _ => Byte.xab) "x" (Z.shiftl 1 62) = None.
Proof. vm_compute. reflexivity. Qed.

Example RandomName_ns_4 : RandomName (fun _ => Byte.xab) "ns" 4 = Some "ns-a".
Proof. reflexivity. Qed.

Example RandomName_default :
  option_map String.length (RandomName (fun _ => Byte.x0f) "" 0) = Some 32%nat.
Proof. reflexivity. Qed.

(** ** The registry of actions *)

Section Registry.

Context {C U : Type}.

(** Every way of building an environment sets its context, and the
    registration methods leave it alone. *)
Lemma newTestEnv_ctx (bg : C) : ctx (@newTestEnv C U bg) = Some bg.
Proof. reflexivity. Qed.

Lemma register_ctx (r : actionRole) (e : testEnv C U) fs :
  ctx (register r e fs) = ctx e.
Proof. now destruct fs. Qed.

Lemma call_register (e : testEnv C U) (reg : Registration C U) :
  call e reg = register (fst reg) e (snd reg).
Proof. destruct reg as [[] fs]; reflexivity. Qed.

Lemma getActionsByRole_register (e : testEnv C U) r r' fs :
  getActionsByRole (register r' e fs) r =
  getActionsByRole e r ++ registeredUnder r [(r', fs)].
Proof.
  unfold getActionsByRole, register. simpl.
  destruct fs as [|f fs].
  - destruct (decide (r' = r)); now rewrite app_nil_r.
  - simpl. rewrite filter_app. f_equal.
    destruct (decide (r' = r)) as [->|Hne].
    + now rewrite filter_cons_True.
    + now rewrite filter_cons_False.
Qed.

Lemma registeredUnder_cons r (reg : Registration C U) regs :
  registeredUnder r (reg :: regs) =
  registeredUnder r [reg] ++ registeredUnder r regs.
Proof.
  destruct reg as [r' fs]. simpl.
  destruct (decide (r' = r)); [destruct fs|]; reflexivity.
Qed.

(** C4.  After any sequence of registration calls, [getActionsByRole(r)]
    holds the actions that were there under [r] followed by exactly the
    actions registered under [r], in the order of the calls; and a call with
    no function returns the environment as it was. *)
Theorem getActionsByRole_registrations
  (e : testEnv C U) (regs : list (Registration C U)) (r : actionRole) :
  getActionsByRole (fold_left call regs e) r =
    getActionsByRole e r ++ registeredUnder r regs
  /\ call e (r, []) = e.
Proof.
  split.
  - revert e. induction regs as [|reg regs IH]; intros e; simpl fold_left.
    + simpl. now rewrite app_nil_r.
    + rewrite IH, call_register, getActionsByRole_register.
      destruct reg as [r' fs]. simpl fst. simpl snd.
      rewrite (registeredUnder_cons r (r', fs) regs).
      now rewrite app_assoc.
  - now destruct r.
Qed.

End Registry.

(** The chain [Setup(f).BeforeEachTest(g).AfterEachTest(h).Finish(k)] of the
    case "all actions" of [TestEnv_APIMethods], with an empty call added. *)
Example getActionsByRole_all_actions :
  let id_ : EnvFunc Z Z := fun c st => ((c, None), st) in
  let e := fold_left call
             [(roleSetup, [id_]); (roleBeforeTest, [id_]);
              (roleBeforeTest, []); (roleAfterTest, [id_]);
              (roleFinish, [id_])] (newTestEnv 0) in
  List.map (fun r => length (getActionsByRole e r))
    [roleSetup; roleBeforeTest; roleBeforeFeature; roleAfterFeature;
     roleAfterTest; roleFinish] = [1; 1; 0; 0; 1; 1]%nat.
Proof. reflexivity. Qed.

(** ** Traces *)

Section TraceFacts.

Context {C U : Type}.

Lemma calledSteps_app (t1 t2 : list (Event C U)) :
  calledSteps (t1 ++ t2) = calledSteps t1 ++ calledSteps t2.
Proof.
  induction t1 as [|ev t1 IH]; simpl; [reflexivity|].
  destruct ev; simpl; now rewrite ?IH.
Qed.

Lemma calledSteps_steps (l : list (Step C U)) :
  calledSteps (List.map EvStep l) = l.
Proof. induction l as [|s l IH]; simpl; [reflexivity | now rewrite IH]. Qed.


Lemma openedTests_app (t1 t2 : list (Event C U)) :
  openedTests (t1 ++ t2) = openedTests t1 ++ openedTests t2.
Proof.
  induction t1 as [|ev t1 IH]; simpl; [reflexivity|].
  destruct ev; simpl; now rewrite ?IH.
Qed.

Lemma openedTests_steps (l : list (Step C U)) :
  openedTests (List.map EvStep l) = [].
Proof. induction l as [|s l IH]; simpl; [reflexivity | exact IH]. Qed.

Lemma calledActions_steps (l : list (Step C U)) :
  calledActions (List.map EvStep l) = [].
Proof. induction l as [|s l IH]; simpl; [reflexivity | exact IH]. Qed.






End TraceFacts.

(** ** The steps of a feature *)

Section ExecFeature.

Context {C U : Type}.

Implicit Types (c : Context C) (st : Store U) (e : testEnv C U)
  (tr : list (Event C U)) (s : Step C U) (f : Feature C U).

Local Abbreviation mk := (@Build_Machine C U).

Lemma callStep_eq s c e st tr :
  callStep s c (mk e st tr) =
  (Done (match fst (sFunc s c st) with
         | Returned c' => Running c'
         | Goexit => Exited c
         end),
   mk e (snd (sFunc s c st)) (tr ++ [EvStep s])).
Proof. unfold callStep. simpl. now destruct (sFunc s c st). Qed.

(** The loop over the setups (or teardowns): the steps called are a prefix
    of the list, the whole list when the goroutine is still running at the
    end.  The result does not depend on the environment or on the trace so
    far. *)
Lemma runSteps_spec (steps : list (Step C U)) c st :
  exists fl st' ran,
    (forall e tr,
       runSteps steps c (mk e st tr) =
       (Done fl, mk e st' (tr ++ List.map EvStep ran))) /\
    ran `prefix_of` steps /\
    (forall c', fl = Running c' -> ran = steps) /\
    ((forall s, s ∈ steps -> returns s) -> exists c', fl = Running c') /\
    ((forall s, s ∈ steps -> keepsAssessmentRegex s) ->
     assessmentRegex (cfg st') = assessmentRegex (cfg st)).
Proof.
  revert c st. induction steps as [|s steps IH]; intros c st.
  - exists (Running c), st, []. repeat split.
    + intros e tr. simpl. unfold ret. now rewrite app_nil_r.
    + reflexivity.
    + intros _. now exists c.
  - destruct (fst (sFunc s c st)) as [c1|] eqn:Hr.
    + destruct (IH c1 (snd (sFunc s c st)))
        as (fl & st' & ran & Hrun & Hpre & Hall & Hret & Hkeep).
      exists fl, st', (s :: ran). repeat split.
      * intros e tr. simpl runSteps. unfold bind.
        rewrite callStep_eq, Hr, Hrun. simpl.
        now rewrite <- app_assoc.
      * now apply prefix_cons.
      * intros c' Hfl. now rewrite (Hall c' Hfl).
      * intros Hs. apply Hret. intros s' Hin. apply Hs. now right.
      * intros Hs. rewrite Hkeep.
        -- apply Hs. now left.
        -- intros s' Hin. apply Hs. now right.
    + exists (Exited c), (snd (sFunc s c st)), [s]. repeat split.
      * intros e tr. simpl runSteps. unfold bind.
        now rewrite callStep_eq, Hr.
      * apply prefix_cons, prefix_nil.
      * intros c' Hfl. discriminate.
      * intros Hs. destruct (Hs s ltac:(now left) c st) as [c' Hc'].
        congruence.
      * intros Hs. apply Hs. now left.
Qed.

Lemma runAssessment_eq (featName : string) s c e st tr :
  runAssessment featName s c (mk e st tr) =
  if notMatched (assessmentRegex (cfg st)) (sName s)
  then (Done c,
        mk e st (tr ++ [EvRun [featName; sName s];
                        EvSkipf ("Skipping assessment " +:+ dquote +:+ sName s
                                 +:+ dquote +:+ ": name not matched")]))
  else (Done (flowCtx (match fst (sFunc s c st) with
                       | Returned c' => Running c'
                       | Goexit => Exited c
                       end)),
        mk e (snd (sFunc s c st)) (tr ++ [EvRun [featName; sName s]; EvStep s])).
Proof.
  unfold runAssessment, bind, emit, getCfg, ret. simpl.
  destruct (notMatched (assessmentRegex (cfg st)) (sName s)); simpl.
  - now rewrite <- app_assoc.
  - rewrite callStep_eq. now rewrite <- app_assoc.
Qed.

(** The loop over the assessments: every assessment opens its sub-test; the
    steps called are among the assessments, in their order.  When no
    assessment touches the filter, they are exactly the ones that the
    filter lets through. *)
Lemma runAssessments_spec (featName : string) (l : list (Step C U)) c st :
  exists c' st' added,
    (forall e tr,
       runAssessments featName l c (mk e st tr) =
       (Done c', mk e st' (tr ++ added))) /\
    calledSteps added `sublist_of` l /\
    openedTests added = List.map (fun s => [featName; sName s]) l /\
    lifecycle added = [] /\
    ((forall s, s ∈ l -> keepsAssessmentRegex s) ->
     assessmentRegex (cfg st') = assessmentRegex (cfg st) /\
     calledSteps added =
       filter (fun s => notMatched (assessmentRegex (cfg st)) (sName s) = false) l).
Proof.
  revert c st. induction l as [|s l IH]; intros c st.
  - exists c, st, []. repeat split; try reflexivity.
    intros e tr. simpl. unfold ret. now rewrite app_nil_r.
  - destruct (notMatched (assessmentRegex (cfg st)) (sName s)) eqn:Hm.
    + destruct (IH c st) as (c' & st' & added & Hrun & Hsub & Hopen & Hact & Hkeep).
      exists c', st',
        ([EvRun [featName; sName s];
          EvSkipf ("Skipping assessment " +:+ dquote +:+ sName s
                   +:+ dquote +:+ ": name not matched")] ++ added).
      repeat split.
      * intros e tr. simpl runAssessments. unfold bind.
        rewrite runAssessment_eq, Hm, Hrun. now rewrite <- app_assoc.
      * simpl. now apply sublist_cons.
      * simpl. now rewrite Hopen.
      * simpl. exact Hact.
      * apply Hkeep. intros s' Hin. apply H. now right.
      * simpl. rewrite filter_cons_False by (rewrite Hm; discriminate).
        apply Hkeep. intros s' Hin. apply H. now right.
    + destruct (IH (flowCtx (match fst (sFunc s c st) with
                             | Returned c' => Running c'
                             | Goexit => Exited c
                             end)) (snd (sFunc s c st)))
        as (c' & st' & added & Hrun & Hsub & Hopen & Hact & Hkeep).
      exists c', st', ([EvRun [featName; sName s]; EvStep s] ++ added).
      repeat split.
      * intros e tr. simpl runAssessments. unfold bind.
        rewrite runAssessment_eq, Hm, Hrun. now rewrite <- app_assoc.
      * simpl. now apply sublist_skip.
      * simpl. now rewrite Hopen.
      * simpl. exact Hact.
      * destruct Hkeep as [Hk _]; [intros s' Hin; apply H; now right|].
        rewrite Hk. apply H. now left.
      * destruct Hkeep as [_ Hk]; [intros s' Hin; apply H; now right|].
        simpl. rewrite filter_cons_True by exact Hm.
        rewrite Hk. f_equal.
        now rewrite (H s ltac:(now left) c st).
Qed.

(** The assessments that the filter skips can as well be left out: the
    loop returns the same context and leaves the same store. *)
Lemma runAssessments_filter (featName : string) (re : option Regexp)
  (l : list (Step C U)) c st :
  assessmentRegex (cfg st) = re ->
  (forall s, s ∈ l -> keepsAssessmentRegex s) ->
  exists c' st' added added',
    (forall e tr,
       runAssessments featName l c (mk e st tr) =
       (Done c', mk e st' (tr ++ added))) /\
    (forall e tr,
       runAssessments featName
         (filter (fun s => notMatched re (sName s) = false) l) c (mk e st tr) =
       (Done c', mk e st' (tr ++ added'))).
Proof.
  revert c st. induction l as [|s l IH]; intros c st Hre Hkeep.
  - exists c, st, [], []. split; intros e tr; simpl; unfold ret;
      now rewrite app_nil_r.
  - destruct (notMatched re (sName s)) eqn:Hm.
    + destruct (IH c st Hre) as (c' & st' & added & added' & Hrun & Hrun').
      { intros s' Hin. apply Hkeep. now right. }
      eexists c', st', _, added'. split.
      * intros e tr. simpl runAssessments. unfold bind.
        rewrite runAssessment_eq, Hre, Hm, Hrun.
        rewrite <- app_assoc. reflexivity.
      * intros e tr.
        rewrite filter_cons_False by (rewrite Hm; discriminate).
        apply Hrun'.
    + destruct (IH (flowCtx (match fst (sFunc s c st) with
                             | Returned c' => Running c'
                             | Goexit => Exited c
                             end)) (snd (sFunc s c st)))
        as (c' & st' & added & added' & Hrun & Hrun').
      { rewrite <- Hre. apply Hkeep. now left. }
      { intros s' Hin. apply Hkeep. now right. }
      eexists c', st', _, _. split.
      * intros e tr. simpl runAssessments. unfold bind.
        rewrite runAssessment_eq, Hre, Hm, Hrun.
        rewrite <- app_assoc. reflexivity.
      * intros e tr.
        rewrite filter_cons_True by exact Hm.
        simpl runAssessments. unfold bind.
        rewrite runAssessment_eq, Hre, Hm, Hrun'.
        rewrite <- app_assoc. reflexivity.
Qed.

Lemma execFeature_eq c f e st tr :
  execFeature c f (mk e st tr) =
  if notMatched (featureRegex (cfg st)) (fName f)
  then (Done c,
        mk e st (tr ++ [EvRun [fName f];
                        EvSkipf ("Skipping feature " +:+ dquote +:+ fName f
                                 +:+ dquote +:+ ": name not matched")]))
  else
    match runSteps (GetStepsByLevel (fSteps f) LevelSetup) c
            (mk e st (tr ++ [EvRun [fName f]])) with
    | (Done (Exited c'), m') => (Done c', m')
    | (Done (Running c'), m') =>
        match runAssessments (fName f)
                (GetStepsByLevel (fSteps f) LevelAssess) c' m' with
        | (Done c'', m'') =>
            match runSteps (GetStepsByLevel (fSteps f) LevelTeardown) c'' m'' with
            | (Done fl, m3) => (Done (flowCtx fl), m3)
            | (Stopped x, m3) => (Stopped x, m3)
            end
        | (Stopped x, m'') => (Stopped x, m'')
        end
    | (Stopped x, m') => (Stopped x, m')
    end.
Proof.
  unfold execFeature, bind, emit, getCfg, ret. simpl.
  destruct (notMatched (featureRegex (cfg st)) (fName f)); simpl.
  - now rewrite <- app_assoc.
  - destruct (runSteps _ c _) as [[[c'|c']|x] m']; reflexivity.
Qed.

(** A feature that the feature filter lets through. *)
Lemma execFeature_spec c f st :
  notMatched (featureRegex (cfg st)) (fName f) = false ->
  exists c' st' ranS addedA ranT,
    (forall e tr,
       execFeature c f (mk e st tr) =
       (Done c',
        mk e st' (tr ++ EvRun [fName f] :: List.map EvStep ranS
                     ++ addedA ++ List.map EvStep ranT))) /\
    ranS `prefix_of` GetStepsByLevel (fSteps f) LevelSetup /\
    calledSteps addedA `sublist_of` GetStepsByLevel (fSteps f) LevelAssess /\
    ranT `prefix_of` GetStepsByLevel (fSteps f) LevelTeardown /\
    lifecycle addedA = [] /\
    ((forall s, s ∈ fSteps f -> keepsAssessmentRegex s) ->
     Forall (fun s => notMatched (assessmentRegex (cfg st)) (sName s) = false)
       (calledSteps addedA)) /\
    ((forall s, s ∈ GetStepsByLevel (fSteps f) LevelSetup -> returns s) ->
     ranS = GetStepsByLevel (fSteps f) LevelSetup /\
     openedTests addedA =
       List.map (fun s => [fName f; sName s])
         (GetStepsByLevel (fSteps f) LevelAssess) /\
     ((forall s, s ∈ fSteps f -> keepsAssessmentRegex s) ->
      calledSteps addedA =
        filter (fun s => notMatched (assessmentRegex (cfg st)) (sName s) = false)
          (GetStepsByLevel (fSteps f) LevelAssess)) /\
     ((forall s, s ∈ GetStepsByLevel (fSteps f) LevelTeardown -> returns s) ->
      ranT = GetStepsByLevel (fSteps f) LevelTeardown)).
Proof.
  intros Hm.
  assert (Hin : forall l s, s ∈ GetStepsByLevel (fSteps f) l -> s ∈ fSteps f).
  { intros l s Hs. unfold GetStepsByLevel in Hs.
    now apply list_elem_of_filter in Hs. }
  destruct (runSteps_spec (GetStepsByLevel (fSteps f) LevelSetup) c st)
    as (fl & st1 & ranS & HrunS & HpreS & HallS & HretS & HkeepS).
  destruct fl as [c1|c1].
  - destruct (runAssessments_spec (fName f)
                (GetStepsByLevel (fSteps f) LevelAssess) c1 st1)
      as (c2 & st2 & addedA & HrunA & HsubA & HopenA & HactA & HkeepA).
    destruct (runSteps_spec (GetStepsByLevel (fSteps f) LevelTeardown) c2 st2)
      as (fl' & st3 & ranT & HrunT & HpreT & HallT & HretT & HkeepT).
    assert (HA : (forall s, s ∈ fSteps f -> keepsAssessmentRegex s) ->
                 calledSteps addedA =
                 filter (fun s => notMatched (assessmentRegex (cfg st)) (sName s)
                                  = false)
                   (GetStepsByLevel (fSteps f) LevelAssess)).
    { intros Hk. destruct HkeepA as [_ HA].
      { intros s Hs. apply Hk. now apply (Hin LevelAssess). }
      rewrite HA, HkeepS; [reflexivity|].
      intros s Hs. apply Hk. now apply (Hin LevelSetup). }
    exists (flowCtx fl'), st3, ranS, addedA, ranT.
    split; [|split; [|split; [|split; [|split; [|split]]]]]; try assumption.
    + intros e tr. rewrite execFeature_eq, Hm, HrunS, HrunA, HrunT.
      do 2 f_equal. rewrite <- !app_assoc. reflexivity.
    + intros Hk. rewrite (HA Hk). apply Forall_forall.
      intros s Hs. now apply list_elem_of_filter in Hs.
    + intros _. split; [now apply (HallS c1)|]. split; [exact HopenA|]. split.
      * exact HA.
      * intros Hr. destruct (HretT Hr) as [c3 ->]. now apply (HallT c3).
  - exists c1, st1, ranS, [], [].
    split; [|split; [|split; [|split; [|split; [|split]]]]]; try assumption.
    + intros e tr. rewrite execFeature_eq, Hm, HrunS.
      do 2 f_equal. now rewrite app_nil_r, <- app_assoc.
    + apply sublist_nil_l.
    + apply prefix_nil.
    + reflexivity.
    + intros _. constructor.
    + intros Hr. destruct (HretS Hr) as [c' Hc']. discriminate.
Qed.

(** *** The state that the steps called leave behind *)

Lemma applied_app (l1 l2 : list (Step C U)) c st :
  applied (l1 ++ l2) c st
  = applied l2 (fst (applied l1 c st)) (snd (applied l1 c st)).
Proof.
  revert c st. induction l1 as [|s l1 IH]; intros c st; [reflexivity|].
  simpl. destruct (sFunc s c st) as [[c1|] st1]; apply IH.
Qed.

(** The loop over the setups (or teardowns) leaves the context and the
    store of the functions of the steps it has called, applied in turn. *)
Lemma runSteps_applied (steps : list (Step C U)) c st e tr :
  exists fl st' added,
    runSteps steps c (mk e st tr) = (Done fl, mk e st' (tr ++ added)) /\
    (flowCtx fl, st') = applied (calledSteps added) c st.
Proof.
  revert c st tr. induction steps as [|s steps IH]; intros c st tr.
  - exists (Running c), st, []. split; [|reflexivity].
    simpl. unfold ret. now rewrite app_nil_r.
  - destruct (sFunc s c st) as [[c1|] st1] eqn:Hs.
    + destruct (IH c1 st1 (tr ++ [EvStep s])) as (fl & st' & added & Hrun & Happ).
      exists fl, st', (EvStep s :: added). split.
      * simpl runSteps. unfold bind. rewrite callStep_eq, Hs. simpl.
        rewrite Hrun. now rewrite <- app_assoc.
      * simpl. now rewrite Hs.
    + exists (Exited c), st1, [EvStep s]. split.
      * simpl runSteps. unfold bind. now rewrite callStep_eq, Hs.
      * simpl. now rewrite Hs.
Qed.

(** So does the loop over the assessments: the functions of the assessments
    that the filter skips are not applied. *)
Lemma runAssessments_applied (featName : string) (l : list (Step C U)) c st e tr :
  exists c' st' added,
    runAssessments featName l c (mk e st tr) = (Done c', mk e st' (tr ++ added)) /\
    (c', st') = applied (calledSteps added) c st.
Proof.
  revert c st tr. induction l as [|s l IH]; intros c st tr.
  - exists c, st, []. split; [|reflexivity].
    simpl. unfold ret. now rewrite app_nil_r.
  - destruct (notMatched (assessmentRegex (cfg st)) (sName s)) eqn:Hm.
    + destruct (IH c st
                  (tr ++ [EvRun [featName; sName s];
                          EvSkipf ("Skipping assessment " +:+ dquote +:+ sName s
                                   +:+ dquote +:+ ": name not matched")]))
        as (c' & st' & added & Hrun & Happ).
      eexists c', st', (_ :: _ :: added). split.
      * simpl runAssessments. unfold bind. rewrite runAssessment_eq, Hm, Hrun.
        rewrite <- app_assoc. reflexivity.
      * exact Happ.
    + destruct (sFunc s c st) as [[c1|] st1] eqn:Hs.
      * destruct (IH c1 st1 (tr ++ [EvRun [featName; sName s]; EvStep s]))
          as (c' & st' & added & Hrun & Happ).
        eexists c', st', (_ :: _ :: added). split.
        -- simpl runAssessments. unfold bind.
           rewrite runAssessment_eq, Hm, Hs. simpl. rewrite Hrun.
           rewrite <- app_assoc. reflexivity.
        -- simpl. now rewrite Hs.
      * destruct (IH c st1 (tr ++ [EvRun [featName; sName s]; EvStep s]))
          as (c' & st' & added & Hrun & Happ).
        eexists c', st', (_ :: _ :: added). split.
        -- simpl runAssessments. unfold bind.
           rewrite runAssessment_eq, Hm, Hs. simpl. rewrite Hrun.
           rewrite <- app_assoc. reflexivity.
        -- simpl. now rewrite Hs.
Qed.

(** [execFeature] returns the context, and leaves the store, of the
    functions of the steps it has called, applied in the order of the
    calls; it leaves the environment as it is. *)
Lemma execFeature_applied c f (m : Machine C U) :
  exists c' st' added,
    execFeature c f m = (Done c', mk (env m) st' (trace m ++ added)) /\
    (c', st') = applied (calledSteps added) c (store m).
Proof.
  destruct m as [e st tr]. cbn [env store trace].
  rewrite execFeature_eq.
  destruct (notMatched (featureRegex (cfg st)) (fName f)).
  { eexists c, st, _. split; reflexivity. }
  destruct (runSteps_applied (GetStepsByLevel (fSteps f) LevelSetup) c st e
              (tr ++ [EvRun [fName f]]))
    as (fl & st1 & addedS & HrunS & HappS).
  rewrite HrunS. destruct fl as [c1|c1]; cbn [flowCtx] in HappS.
  - destruct (runAssessments_applied (fName f)
                (GetStepsByLevel (fSteps f) LevelAssess) c1 st1 e
                ((tr ++ [EvRun [fName f]]) ++ addedS))
      as (c2 & st2 & addedA & HrunA & HappA).
    rewrite HrunA.
    destruct (runSteps_applied (GetStepsByLevel (fSteps f) LevelTeardown) c2 st2 e
                (((tr ++ [EvRun [fName f]]) ++ addedS) ++ addedA))
      as (fl' & st3 & addedT & HrunT & HappT).
    rewrite HrunT.
    exists (flowCtx fl'), st3, (EvRun [fName f] :: addedS ++ addedA ++ addedT).
    split.
    + do 2 f_equal. rewrite <- !app_assoc. reflexivity.
    + cbn [calledSteps]. rewrite !calledSteps_app, !applied_app.
      rewrite <- HappS. cbn [fst snd]. rewrite <- HappA. cbn [fst snd].
      exact HappT.
  - exists c1, st1, (EvRun [fName f] :: addedS). split.
    + do 2 f_equal. now rewrite <- app_assoc.
    + exact HappS.
Qed.

(** C5.  A feature whose name the configured feature filter does not match:
    its sub-test is opened and skipped at once.  No step is called, the
    context comes back as it went in, and the environment and the store are
    left as they were; the trace records the sub-test and its skip. *)
Theorem execFeature_skipped c f (m : Machine C U) (re : Regexp) :
  featureRegex (cfg (store m)) = Some re ->
  MatchString re (fName f) = false ->
  execFeature c f m =
  (Done c,
   mk (env m) (store m)
      (trace m ++ [EvRun [fName f];
                   EvSkipf ("Skipping feature " +:+ dquote +:+ fName f
                            +:+ dquote +:+ ": name not matched")])).
Proof.
  intros Hre Hno. destruct m as [e st tr]. simpl in *.
  rewrite execFeature_eq. unfold notMatched. now rewrite Hre, Hno.
Qed.

(** C1.  The steps that [execFeature] calls are, in this order: setups,
    assessments, teardowns, whatever the order of the steps in the feature.
    Within each level they come in the order of the feature: the setups and
    the teardowns called are a beginning of the feature's setups and
    teardowns, the assessments called are a subsequence of its assessments.
    These steps are run, and in that order: the context that
    [execFeature] returns and the store that it leaves are those of their
    functions applied in turn, the setups first, then the assessments, then
    the teardowns, each to what the one before has left.
    When the feature is not filtered out, every step function returns and
    none touches the assessment filter, all the setups, then all the
    assessments that the filter lets through, then all the teardowns are
    called. *)
Theorem execFeature_levels_in_order c f (m : Machine C U) :
  exists added ranS ranA ranT,
    trace (snd (execFeature c f m)) = trace m ++ added /\
    calledSteps added = ranS ++ ranA ++ ranT /\
    ranS `prefix_of` GetStepsByLevel (fSteps f) LevelSetup /\
    ranA `sublist_of` GetStepsByLevel (fSteps f) LevelAssess /\
    ranT `prefix_of` GetStepsByLevel (fSteps f) LevelTeardown /\
    fst (execFeature c f m)
      = Done (fst (applied (ranS ++ ranA ++ ranT) c (store m))) /\
    store (snd (execFeature c f m))
      = snd (applied (ranS ++ ranA ++ ranT) c (store m)) /\
    (notMatched (featureRegex (cfg (store m))) (fName f) = false ->
     (forall s, s ∈ fSteps f -> returns s /\ keepsAssessmentRegex s) ->
     calledSteps added =
       GetStepsByLevel (fSteps f) LevelSetup
       ++ filter (fun s => notMatched (assessmentRegex (cfg (store m))) (sName s)
                           = false)
            (GetStepsByLevel (fSteps f) LevelAssess)
       ++ GetStepsByLevel (fSteps f) LevelTeardown).
Proof.
  destruct m as [e st tr]. simpl store. simpl trace.
  destruct (notMatched (featureRegex (cfg st)) (fName f)) eqn:Hm.
  - exists [EvRun [fName f];
            EvSkipf ("Skipping feature " +:+ dquote +:+ fName f
                     +:+ dquote +:+ ": name not matched")], [], [], [].
    rewrite execFeature_eq, Hm. simpl.
    repeat split; try apply prefix_nil; try apply sublist_nil_l.
    discriminate.
  - destruct (execFeature_spec c f st Hm)
      as (c' & st' & ranS & addedA & ranT & Hrun & HpreS & HsubA & HpreT
          & _ & _ & Hfull).
    exists (EvRun [fName f] :: List.map EvStep ranS ++ addedA
              ++ List.map EvStep ranT), ranS, (calledSteps addedA), ranT.
    assert (Hcalled :
      calledSteps (EvRun [fName f] :: List.map EvStep ranS ++ addedA
                     ++ List.map EvStep ranT)
      = ranS ++ calledSteps addedA ++ ranT).
    { simpl. now rewrite !calledSteps_app, !calledSteps_steps. }
    destruct (execFeature_applied c f (mk e st tr))
      as (c1 & st1 & added1 & Hrun1 & Happ).
    cbn [env store trace] in Hrun1, Happ.
    rewrite Hrun in Hrun1. injection Hrun1 as <- <- Htr.
    apply app_inv_head in Htr. subst added1. rewrite Hcalled in Happ.
    rewrite Hrun. cbn [fst snd trace store]. rewrite <- Happ. cbn [fst snd].
    split; [reflexivity|]. split; [exact Hcalled|].
    split; [exact HpreS|]. split; [exact HsubA|]. split; [exact HpreT|].
    split; [reflexivity|]. split; [reflexivity|].
    intros _ Hall.
    assert (Hin : forall l s, s ∈ GetStepsByLevel (fSteps f) l -> s ∈ fSteps f).
    { intros l s Hs. unfold GetStepsByLevel in Hs.
      now apply list_elem_of_filter in Hs. }
    destruct Hfull as (HS & _ & HA & HT).
    { intros s Hs. now apply (Hall s), (Hin LevelSetup). }
    rewrite Hcalled, HS, HA, HT; [reflexivity| |].
    + intros s Hs. now apply (Hall s), (Hin LevelTeardown).
    + intros s Hs. now apply (Hall s).
Qed.

Lemma GetStepsByLevel_level (steps : list (Step C U)) (l : Level) s :
  s ∈ GetStepsByLevel steps l -> sLevel s = l.
Proof. unfold GetStepsByLevel. intros Hs. now apply list_elem_of_filter in Hs. Qed.

Lemma notMatched_Some (re : Regexp) (name : string) :
  notMatched (Some re) name = false <-> MatchString re name = true.
Proof. simpl. now destruct (MatchString re name). Qed.

Lemma GetStepsByLevel_withoutUnmatched (re : Regexp) f (l : Level) :
  l <> LevelAssess ->
  GetStepsByLevel (fSteps (withoutUnmatched re f)) l
  = GetStepsByLevel (fSteps f) l.
Proof.
  intros Hl. unfold GetStepsByLevel, withoutUnmatched. simpl.
  rewrite list_filter_filter. apply list_filter_iff.
  intros s. unfold selected. split; [tauto|].
  intros Hs. split; [exact Hs|]. congruence.
Qed.

Lemma GetStepsByLevel_withoutUnmatched_assess (re : Regexp) f :
  GetStepsByLevel (fSteps (withoutUnmatched re f)) LevelAssess
  = filter (fun s => notMatched (Some re) (sName s) = false)
      (GetStepsByLevel (fSteps f) LevelAssess).
Proof.
  unfold GetStepsByLevel, withoutUnmatched. simpl fSteps.
  rewrite !list_filter_filter. apply list_filter_iff.
  intros s. unfold selected. rewrite notMatched_Some. tauto.
Qed.

(** With a stable assessment filter, a feature and the feature without the
    assessments that the filter skips return the same context and leave the
    same store. *)
Lemma execFeature_withoutUnmatched c f st (re : Regexp) :
  assessmentRegex (cfg st) = Some re ->
  (forall s, s ∈ fSteps f -> keepsAssessmentRegex s) ->
  exists c' st' added added',
    (forall e tr,
       execFeature c f (mk e st tr) = (Done c', mk e st' (tr ++ added))) /\
    (forall e tr,
       execFeature c (withoutUnmatched re f) (mk e st tr) =
       (Done c', mk e st' (tr ++ added'))).
Proof.
  intros Hre Hkeep.
  assert (Hin : forall l s, s ∈ GetStepsByLevel (fSteps f) l -> s ∈ fSteps f).
  { intros l s Hs. unfold GetStepsByLevel in Hs.
    now apply list_elem_of_filter in Hs. }
  destruct (notMatched (featureRegex (cfg st)) (fName f)) eqn:Hm.
  - eexists c, st, _, _. split; intros e tr; rewrite execFeature_eq;
      simpl fName; rewrite Hm; reflexivity.
  - destruct (runSteps_spec (GetStepsByLevel (fSteps f) LevelSetup) c st)
      as (fl & st1 & ranS & HrunS & _ & _ & _ & HkeepS).
    assert (Hre1 : assessmentRegex (cfg st1) = Some re).
    { rewrite HkeepS; [exact Hre|].
      intros s Hs. now apply Hkeep, (Hin LevelSetup). }
    destruct fl as [c1|c1].
    + destruct (runAssessments_filter (fName f) (Some re)
                  (GetStepsByLevel (fSteps f) LevelAssess) c1 st1 Hre1)
        as (c2 & st2 & addedA & addedA' & HrunA & HrunA').
      { intros s Hs. now apply Hkeep, (Hin LevelAssess). }
      destruct (runSteps_spec (GetStepsByLevel (fSteps f) LevelTeardown) c2 st2)
        as (fl' & st3 & ranT & HrunT & _).
      eexists (flowCtx fl'), st3, _, _. split; intros e tr.
      * rewrite execFeature_eq, Hm, HrunS, HrunA, HrunT.
        rewrite <- !app_assoc. reflexivity.
      * rewrite execFeature_eq. simpl fName. rewrite Hm.
        rewrite (GetStepsByLevel_withoutUnmatched re f LevelSetup) by discriminate.
        rewrite (GetStepsByLevel_withoutUnmatched re f LevelTeardown) by discriminate.
        rewrite GetStepsByLevel_withoutUnmatched_assess.
        rewrite HrunS, HrunA', HrunT.
        rewrite <- !app_assoc. reflexivity.
    + eexists c1, st1, _, _. split; intros e tr.
      * rewrite execFeature_eq, Hm, HrunS. rewrite <- !app_assoc. reflexivity.
      * rewrite execFeature_eq. simpl fName. rewrite Hm.
        rewrite (GetStepsByLevel_withoutUnmatched re f LevelSetup) by discriminate.
        rewrite HrunS. rewrite <- !app_assoc. reflexivity.
Qed.

Lemma filter_all {A} (P : A -> Prop) `{forall x, Decision (P x)} (l : list A) :
  Forall P l -> filter P l = l.
Proof.
  induction 1 as [|x l Hx _ IH]; [reflexivity|].
  now rewrite filter_cons_True, IH.
Qed.

Lemma filter_none {A} (P : A -> Prop) `{forall x, Decision (P x)} (l : list A) :
  Forall (fun x => ~ P x) l -> filter P l = [].
Proof.
  induction 1 as [|x l Hx _ IH]; [reflexivity|].
  now rewrite filter_cons_False.
Qed.

(** C6.  With an assessment filter [re] configured, and left alone by the
    steps: no assessment whose name does not match is ever called, and the
    context returned and the store left behind are those of the feature
    without these assessments.  They are those of the functions of the
    steps called, applied in turn: the function of an assessment that is
    skipped is not run, and the function of every assessment that is called
    is.  When the assessments are reached (the
    feature is not filtered out and its setups return), every assessment
    has a sub-test of its own, named after it, and the assessments called
    are exactly the ones whose name matches, in their order. *)
Theorem execFeature_assessment_filter c f (m : Machine C U) (re : Regexp) :
  assessmentRegex (cfg (store m)) = Some re ->
  (forall s, s ∈ fSteps f -> keepsAssessmentRegex s) ->
  exists added,
    trace (snd (execFeature c f m)) = trace m ++ added /\
    Forall (selected re) (calledSteps added) /\
    fst (execFeature c f m) = fst (execFeature c (withoutUnmatched re f) m) /\
    store (snd (execFeature c f m))
      = store (snd (execFeature c (withoutUnmatched re f) m)) /\
    fst (execFeature c f m)
      = Done (fst (applied (calledSteps added) c (store m))) /\
    store (snd (execFeature c f m))
      = snd (applied (calledSteps added) c (store m)) /\
    (notMatched (featureRegex (cfg (store m))) (fName f) = false ->
     (forall s, s ∈ GetStepsByLevel (fSteps f) LevelSetup -> returns s) ->
     openedTests added =
       [fName f] :: List.map (fun s => [fName f; sName s])
                      (GetStepsByLevel (fSteps f) LevelAssess) /\
     filter (fun s => sLevel s = LevelAssess) (calledSteps added) =
       filter (fun s => MatchString re (sName s) = true)
         (GetStepsByLevel (fSteps f) LevelAssess)).
Proof.
  intros Hre Hkeep. destruct m as [e st tr]. simpl in Hre. simpl store. simpl trace.
  destruct (execFeature_withoutUnmatched c f st re Hre Hkeep)
    as (r & st' & added0 & added' & Hf & Hf').
  rewrite Hf'. simpl fst. simpl snd. simpl store.
  destruct (notMatched (featureRegex (cfg st)) (fName f)) eqn:Hm.
  - eexists. rewrite execFeature_eq, Hm. simpl.
    split; [reflexivity|]. split; [constructor|].
    specialize (Hf e tr). rewrite execFeature_eq, Hm in Hf.
    injection Hf as Hc Hst _.
    split; [now rewrite Hc|]. split; [exact Hst|].
    split; [reflexivity|]. split; [reflexivity|]. discriminate.
  - destruct (execFeature_spec c f st Hm)
      as (c' & st1 & ranS & addedA & ranT & Hrun & HpreS & HsubA & HpreT
          & _ & Hsel & Hfull).
    destruct (execFeature_applied c f (mk e st tr))
      as (c2 & st2 & added2 & Hrun2 & Happ).
    cbn [env store trace] in Hrun2, Happ.
    rewrite Hrun in Hrun2. injection Hrun2 as <- <- Htr.
    apply app_inv_head in Htr. subst added2.
    specialize (Hf e tr). rewrite Hrun in Hf. injection Hf as Hc Hst _.
    exists (EvRun [fName f] :: List.map EvStep ranS ++ addedA
              ++ List.map EvStep ranT).
    assert (Hcalled :
      calledSteps (EvRun [fName f] :: List.map EvStep ranS ++ addedA
                     ++ List.map EvStep ranT)
      = ranS ++ calledSteps addedA ++ ranT).
    { simpl. now rewrite !calledSteps_app, !calledSteps_steps. }
    assert (HlevS : Forall (fun s => sLevel s = LevelSetup) ranS).
    { apply Forall_forall. intros s Hs.
      eapply GetStepsByLevel_level, elem_of_prefix; eassumption. }
    assert (HlevT : Forall (fun s => sLevel s = LevelTeardown) ranT).
    { apply Forall_forall. intros s Hs.
      eapply GetStepsByLevel_level, elem_of_prefix; eassumption. }
    assert (HlevA : Forall (fun s => sLevel s = LevelAssess) (calledSteps addedA)).
    { apply Forall_forall. intros s Hs.
      eapply GetStepsByLevel_level, elem_of_sublist; eassumption. }
    rewrite Hrun. cbn [fst snd trace store].
    split; [reflexivity|].
    split; [|split; [now rewrite Hc|split; [exact Hst|
               split; [now rewrite <- Happ|split; [now rewrite <- Happ|]]]]].
    + rewrite Hcalled. rewrite !Forall_app. repeat split.
      * eapply Forall_impl; [exact HlevS|]. unfold selected. simpl. congruence.
      * eapply Forall_impl; [exact (Hsel Hkeep)|].
        intros s Hs _. rewrite Hre in Hs. now apply notMatched_Some.
      * eapply Forall_impl; [exact HlevT|]. unfold selected. simpl. congruence.
    + intros _ Hret. destruct (Hfull Hret) as (_ & Hopen & HA & _). split.
      * simpl. rewrite !openedTests_app, !openedTests_steps, Hopen.
        now rewrite app_nil_r.
      * rewrite Hcalled, !filter_app.
        rewrite (filter_none _ ranS), (filter_none _ ranT), (filter_all _ _ HlevA).
        -- simpl. rewrite app_nil_r, (HA Hkeep), Hre.
           apply list_filter_iff. intros s. apply notMatched_Some.
        -- eapply Forall_impl; [exact HlevT|]. simpl. congruence.
        -- eapply Forall_impl; [exact HlevS|]. simpl. congruence.
Qed.

End ExecFeature.

(** ** Test *)

Section TestDriver.

Context {C U : Type}.

Implicit Types (c : Context C) (st : Store U) (e : testEnv C U)
  (tr : list (Event C U)) (f : Feature C U) (a : action C U)
  (m : Machine C U).

Local Abbreviation mk := (@Build_Machine C U).
Local Abbreviation mkEnv := (@Build_testEnv C U).

Lemma runAction_eq a e st tr :
  runAction a (mk e st tr) =
  (Done (snd (fst (run a (ctx e) st))),
   mk {| ctx := fst (fst (run a (ctx e) st)); actions := actions e |}
      (snd (run a (ctx e) st)) (tr ++ [EvAction a])).
Proof.
  unfold runAction. simpl. now destruct (run a (ctx e) st) as [[c' err] st'].
Qed.













(** C8.  [Test] without features, in an environment whose context is set:
    the call logs that there is nothing to test and returns; no action and
    no step is called and the environment, its context included, and the
    store are as before. *)
Theorem Test_no_features m (c0 : C) :
  ctx (env m) = Some c0 ->
  Test [] m =
  (Done tt,
   mk (env m) (store m)
      (trace m ++ [EvLog "No test testFeatures provided, skipping test"])).
Proof.
  intros Hctx. unfold Test, bind, getCtx. now rewrite Hctx.
Qed.


End TestDriver.

(** ** Run *)

Section Suite.

Context {C U : Type}.

Implicit Types (c : Context C) (st : Store U) (e : testEnv C U)
  (tr : list (Event C U)) (a : action C U) (m : Machine C U)
  (rs : list (option error)).

Local Abbreviation mk := (@Build_Machine C U).
Local Abbreviation mkEnv := (@Build_testEnv C U).

(** Running actions one after the other always comes to an end. *)
Lemma threaded_total (l : list (action C U)) c st :
  exists rs c' st', threaded l (c, st) rs (c', st').
Proof.
  revert c st. induction l as [|a l IH]; intros c st.
  - exists [], c, st. constructor.
  - destruct (run a c st) as [[c1 r] st1] eqn:Hrun.
    destruct (IH c1 st1) as (rs & c' & st' & Hth).
    exists (r :: rs), c', st'. econstructor; eassumption.
Qed.

(** The setups, as long as none fails. *)
Lemma runSetups_threaded (l : list (action C U)) (s s1 : Context C * Store U) rs :
  threaded l s rs s1 ->
  Forall (fun r => r = None) rs ->
  forall acts tr,
    runSetups l (mk (mkEnv (fst s) acts) (snd s) tr) =
    (Done tt, mk (mkEnv (fst s1) acts) (snd s1) (tr ++ List.map EvAction l)).
Proof.
  induction 1 as [s|a l c0 st0 c' r st' rs s'' Hrun Hth IH];
    intros Hnone acts tr.
  - simpl. unfold ret. now rewrite app_nil_r.
  - inversion Hnone as [|? ? Hr Hrest]; subst.
    cbn [fst snd] in IH |- *.
    simpl runSetups. unfold bind. rewrite runAction_eq. cbn [ctx actions].
    rewrite Hrun. cbn [fst snd].
    rewrite (IH Hrest). now rewrite <- app_assoc.
Qed.

(** The first setup that fails ends the process. *)
Lemma runSetups_failure (pre post : list (action C U)) a
  (s s1 : Context C * Store U) rs c2 (err : error) st2 :
  threaded pre s rs s1 ->
  Forall (fun r => r = None) rs ->
  run a (fst s1) (snd s1) = ((c2, Some err), st2) ->
  forall acts tr,
    runSetups (pre ++ a :: post) (mk (mkEnv (fst s) acts) (snd s) tr) =
    (Stopped (StopExit 1),
     mk (mkEnv c2 acts) st2
        (tr ++ List.map EvAction pre ++ [EvAction a; EvLogFatal err])).
Proof.
  induction 1 as [s|a0 l c0 st0 c' r st' rs s'' Hrun Hth IH];
    intros Hnone Hfail acts tr.
  - simpl app. simpl runSetups.
    unfold bind. rewrite runAction_eq. cbn [ctx actions]. rewrite Hfail. simpl.
    unfold logFatal, bind, emit, stop. simpl. now rewrite <- app_assoc.
  - inversion Hnone as [|? ? Hr Hrest]; subst.
    cbn [fst snd] in IH |- *.
    simpl app. simpl runSetups. unfold bind. rewrite runAction_eq. cbn [ctx actions].
    rewrite Hrun. cbn [fst snd].
    rewrite (IH Hrest Hfail). now rewrite <- app_assoc.
Qed.

(** The finishes: all of them run, each on the context that the one before
    it returned, and every error is printed. *)
Lemma runFinishes_threaded (l : list (action C U)) (s s3 : Context C * Store U) rs :
  threaded l s rs s3 ->
  forall acts tr,
    exists added,
      runFinishes l (mk (mkEnv (fst s) acts) (snd s) tr) =
      (Done tt, mk (mkEnv (fst s3) acts) (snd s3) (tr ++ added)) /\
      calledActions added = l /\
      printedErrors added = errorsOf rs /\
      runnerStarted added = false.
Proof.
  induction 1 as [s|a l c0 st0 c' r st' rs s'' Hrun Hth IH]; intros acts tr.
  - exists []. simpl. unfold ret. now rewrite app_nil_r.
  - cbn [fst snd] in IH |- *.
    simpl runFinishes. unfold bind at 1. rewrite runAction_eq. cbn [ctx actions].
    rewrite Hrun. cbn [fst snd].
    destruct r as [err|].
    + destruct (IH acts ((tr ++ [EvAction a]) ++ [EvLogPrintln err]))
        as (added & Heq & Hcalled & Hprinted & Hstarted).
      exists (EvAction a :: EvLogPrintln err :: added).
      unfold bind, emit. cbn [env store trace]. rewrite Heq.
      split; [now rewrite <- !app_assoc|].
      split; [simpl; now rewrite Hcalled|].
      split; [simpl; now rewrite Hprinted|exact Hstarted].
    + destruct (IH acts (tr ++ [EvAction a]))
        as (added & Heq & Hcalled & Hprinted & Hstarted).
      exists (EvAction a :: added). rewrite Heq.
      split; [now rewrite <- !app_assoc|].
      split; [simpl; now rewrite Hcalled|]. split; assumption.
Qed.

Lemma Run_eq (runner : Runner C U) m (c0 : C) :
  ctx (env m) = Some c0 ->
  Run runner m =
  match runSetups (getSetupActions (env m)) m with
  | (Done _, m1) =>
      match runner (mk (env m1) (store m1) (trace m1 ++ [EvMRun])) with
      | (exitCode, m2) =>
          match runFinishes (getFinishActions (env m2)) m2 with
          | (Done _, m3) => (Done exitCode, m3)
          | (Stopped x, m3) => (Stopped x, m3)
          end
      end
  | (Stopped x, m1) => (Stopped x, m1)
  end.
Proof.
  intros Hctx. unfold Run, bind, getCtx, getEnv, mRun, bind, emit, ret.
  rewrite Hctx. simpl.
  destruct (runSetups _ m) as [[[]|x] m1]; [|reflexivity].
  destruct (runner _) as [exitCode m2].
  destruct (runFinishes _ m2) as [[[]|x] m3]; reflexivity.
Qed.

(** C2.  [Run] in an environment whose context is set.  When the Setup
    actions, run in the order of their registration and each on the context
    returned by the one before it, all succeed, the test runner is started
    on the context and the store they leave, after all of them have been
    called, and [Run] returns what the runner returns.  When one of them
    fails, after those before it have succeeded, the error is handed to
    [log.Fatal] and the process exits with status 1: the trace ends there,
    so no later Setup action is called and the runner is never started;
    the outcome does not depend on the runner. *)
Theorem Run_setups (runner : Runner C U) m (c0 : C) :
  ctx (env m) = Some c0 ->
  (forall rs c1 st1,
     threaded (getSetupActions (env m)) (ctx (env m), store m) rs (c1, st1) ->
     Forall (fun r => r = None) rs ->
     fst (Run runner m) =
     Done (fst (runner
                  (mk (mkEnv c1 (actions (env m))) st1
                      (trace m ++ List.map EvAction (getSetupActions (env m))
                         ++ [EvMRun]))))) /\
  (forall pre a post rs c1 st1 c2 (err : error) st2,
     getSetupActions (env m) = pre ++ a :: post ->
     threaded pre (ctx (env m), store m) rs (c1, st1) ->
     Forall (fun r => r = None) rs ->
     run a c1 st1 = ((c2, Some err), st2) ->
     Run runner m =
     (Stopped (StopExit 1),
      mk (mkEnv c2 (actions (env m))) st2
         (trace m ++ List.map EvAction pre ++ [EvAction a; EvLogFatal err]))).
Proof.
  intros Hctx. rewrite (Run_eq runner m c0 Hctx).
  destruct m as [[c acts] st tr]. cbn [env store trace ctx actions] in *.
  split.
  - intros rs c1 st1 Hth Hnone.
    pose proof (runSetups_threaded _ (c, st) (c1, st1) rs Hth Hnone acts tr)
      as Hsetup.
    cbn [fst snd] in Hsetup. rewrite Hsetup.
    cbn [fst snd env store trace]. rewrite <- app_assoc.
    destruct (runner _) as [exitCode [[c2 acts2] st2 tr2]].
    destruct (threaded_total (getFinishActions (mkEnv c2 acts2)) c2 st2)
      as (frs & c3 & st3 & Hfin).
    destruct (runFinishes_threaded _ (c2, st2) (c3, st3) frs Hfin acts2 tr2)
      as (added & Heq & _).
    cbn [fst snd env] in *. now rewrite Heq.
  - intros pre a post rs c1 st1 c2 err st2 Hsetups Hth Hnone Hfail.
    rewrite Hsetups.
    pose proof (runSetups_failure pre post a (c, st) (c1, st1) rs c2 err st2
                  Hth Hnone Hfail acts tr) as Hsetup.
    cbn [fst snd] in Hsetup. now rewrite Hsetup.
Qed.


End Suite.

(** ** The theorems on the cases of the test-suite *)

Import TestSuite.

Example scrambled_digits :
  vars (store (snd (execFeature (Some 0) scrambled (machine env0 New 0)))) = 1234.
Proof. reflexivity. Qed.

Lemma execFeature_levels_in_order_witness :
  exists added,
    trace (snd (execFeature (Some 0) scrambled (machine env0 New 0)))
      = trace (machine env0 New 0) ++ added /\
    calledSteps added =
      [setup "scrambled-setup" (digit 1); assess "A2" (digit 2);
       assess "A1" (digit 3); teardown "scrambled-teardown" (digit 4)] /\
    store (snd (execFeature (Some 0) scrambled (machine env0 New 0)))
    = snd (applied
             [setup "scrambled-setup" (digit 1); assess "A2" (digit 2);
              assess "A1" (digit 3); teardown "scrambled-teardown" (digit 4)]
             (Some 0) (store (machine env0 New 0))).
Proof.
  destruct (execFeature_levels_in_order (Some 0) scrambled (machine env0 New 0))
    as (added & ranS & ranA & ranT & Htr & Hcalled & _ & _ & _ & _ & Hst & Hall).
  assert (Hsteps : calledSteps added =
            [setup "scrambled-setup" (digit 1); assess "A2" (digit 2);
             assess "A1" (digit 3); teardown "scrambled-teardown" (digit 4)]).
  { rewrite Hall; [reflexivity | reflexivity |].
    intros s Hs. apply list_elem_of_In in Hs. simpl in Hs.
    destruct Hs as [<-|[<-|[<-|[<-|[]]]]]; split; intros c st;
      try (eexists; reflexivity); reflexivity. }
  exists added. split; [exact Htr|]. split; [exact Hsteps|].
  rewrite <- Hsteps, Hcalled. exact Hst.
Defined.

Lemma execFeature_skipped_witness :
  execFeature (Some 0) (feature "skip" [assess "assess" (digit 1)]) keepOnly =
  (Done (Some 0),
   {| env := env keepOnly; store := store keepOnly;
      trace := trace keepOnly
               ++ [EvRun ["skip"];
                   EvSkipf ("Skipping feature " +:+ dquote +:+ "skip"
                            +:+ dquote +:+ ": name not matched")] |}).
Proof.
  apply (execFeature_skipped (Some 0) (feature "skip" [assess "assess" (digit 1)])
           keepOnly (exactly "keep")); reflexivity.
Defined.

Example addAndTake_45 :
  vars (store (snd (execFeature (Some 0) addAndTake addOnly))) = 45.
Proof. reflexivity. Qed.

Lemma execFeature_assessment_filter_witness :
  exists added,
    trace (snd (execFeature (Some 0) addAndTake addOnly))
      = trace addOnly ++ added /\
    Forall (selected (startsWith "add-")) (calledSteps added) /\
    openedTests added =
      [["test-feat"]; ["test-feat"; "add-one"]; ["test-feat"; "add-two"];
       ["test-feat"; "take-one"]] /\
    filter (fun s => sLevel s = LevelAssess) (calledSteps added) =
      [assess "add-one" (stepOnVal (fun v => v + 1));
       assess "add-two" (stepOnVal (fun v => v + 2))] /\
    store (snd (execFeature (Some 0) addAndTake addOnly))
    = snd (applied (calledSteps added) (Some 0) (store addOnly)).
Proof.
  destruct (execFeature_assessment_filter (Some 0) addAndTake addOnly
              (startsWith "add-") eq_refl)
    as (added & Htr & Hsel & _ & _ & _ & Hstate & Hsib).
  { intros s Hs. apply list_elem_of_In in Hs. simpl in Hs.
    destruct Hs as [<-|[<-|[<-|[]]]]; intros c st; reflexivity. }
  destruct Hsib as [Hopen Hcalled]; [reflexivity | |].
  { intros s Hs. apply list_elem_of_In in Hs. simpl in Hs. destruct Hs. }
  exists added. split; [exact Htr|]. split; [exact Hsel|].
  split; [exact Hopen|]. split; [exact Hcalled | exact Hstate].
Defined.

Lemma Test_no_features_witness :
  Test [] (machine env0 New 7) =
  (Done tt,
   {| env := env0; store := {| cfg := New; vars := 7 |};
      trace := [EvLog "No test testFeatures provided, skipping test"] |}).
Proof. apply (Test_no_features (machine env0 New 7) 0). reflexivity. Defined.

Example skipThenKeep_60 : vars (store (snd (Test skipThenKeep keepOnly))) = 60.
Proof. reflexivity. Qed.

Example skipThenKeep_steps :
  List.map sName (calledSteps (trace (snd (Test skipThenKeep keepOnly))))
  = ["assess"].
Proof. reflexivity. Qed.

Example skipThenKeep_lifecycle :
  lifecycle (trace (snd (Test skipThenKeep keepOnly))) =
  [inl {| role := roleBeforeFeature; funcs := [onVal (fun v => v + 20)] |};
   inr "skip";
   inl {| role := roleAfterFeature; funcs := [onVal (fun v => v - 20)] |};
   inl {| role := roleBeforeFeature; funcs := [onVal (fun v => v + 20)] |};
   inr "keep";
   inl {| role := roleAfterFeature; funcs := [onVal (fun v => v - 20)] |}].
Proof. reflexivity. Qed.


(** C7.  A hook of a feature that fails: the test is failed at once, and
    the message names BeforeEachTest, for an action registered with
    [AfterEachFeature] as for one registered with [BeforeEachFeature]. *)
Theorem Test_feature_hook_failure_message :
  fst (hookFails roleAfterFeature) = Stopped StopGoexit /\
  fatalMessage (hookFails roleAfterFeature) = Some "BeforeEachTest failure: boom" /\
  fst (hookFails roleBeforeFeature) = Stopped StopGoexit /\
  fatalMessage (hookFails roleBeforeFeature) = Some "BeforeEachTest failure: boom".
Proof. repeat split; reflexivity. Qed.

(** The hooks of the test itself are reported under their own name. *)
Example Test_test_hook_failure_message :
  fatalMessage (hookFails roleBeforeTest) = Some "BeforeEachTest failure: boom" /\
  fatalMessage (hookFails roleAfterTest) = Some "AfterEachTest failure: boom".
Proof. split; reflexivity. Qed.

Lemma Run_setups_witness :
  Run runner (machine brokenSuiteEnv New 0) =
  (Stopped (StopExit 1),
   {| env := brokenSuiteEnv; store := {| cfg := New; vars := 1 |};
      trace := [EvAction provision; EvAction noCluster;
                EvLogFatal "no cluster"] |}).
Proof.
  apply (proj2 (Run_setups runner (machine brokenSuiteEnv New 0) 0 eq_refl)
           [provision] noCluster [announce] [None]
           (Some 0) {| cfg := New; vars := 1 |}
           (Some 0) "no cluster" {| cfg := New; vars := 1 |}).
  - reflexivity.
  - eapply threaded_cons; [reflexivity | apply threaded_nil].
  - repeat constructor.
  - reflexivity.
Defined.


Example Run_suite :
  fst (Run runner (machine suiteEnv New 0)) = Done 0 /\
  vars (store (snd (Run runner (machine suiteEnv New 0)))) = 86 /\
  ctx (env (snd (Run runner (machine suiteEnv New 0)))) = Some 1 /\
  printedErrors (trace (snd (Run runner (machine suiteEnv New 0))))
    = ["cleanup failed"].
Proof. repeat split; reflexivity. Qed.

(** * Further properties *)

(** ** Steps that end their sub-test *)

Section Exits.

Context {C U : Type}.

Implicit Types (c : Context C) (st : Store U) (e : testEnv C U)
  (tr : list (Event C U)) (s : Step C U) (f : Feature C U).

Local Abbreviation mk := (@Build_Machine C U).

(** The loop over setups (or teardowns) ends with the first step that ends
    the goroutine; the context is the one handed to that step. *)
Lemma runSteps_exit (pre post : list (Step C U)) s c st :
  (forall s', s' ∈ pre -> returns s') ->
  exits s ->
  exists c1 st1,
    forall e tr,
      runSteps (pre ++ s :: post) c (mk e st tr) =
      (Done (Exited c1), mk e st1 (tr ++ List.map EvStep (pre ++ [s]))).
Proof.
  intros Hpre Hs. revert c st.
  induction pre as [|s0 pre IH]; intros c st.
  - exists c, (snd (sFunc s c st)). intros e tr.
    simpl app. simpl runSteps. unfold bind.
    now rewrite callStep_eq, (Hs c st).
  - destruct (Hpre s0 ltac:(now left) c st) as [c0 Hc0].
    destruct (IH (fun s' Hs' => Hpre s' ltac:(now right)) c0 (snd (sFunc s0 c st)))
      as (c1 & st1 & Hrun).
    exists c1, st1. intros e tr.
    simpl app. simpl runSteps. unfold bind.
    rewrite callStep_eq, Hc0, Hrun. simpl. now rewrite <- app_assoc.
Qed.

(** X3.  In a feature that the filter lets through, a setup that ends the
    goroutine, after setups that return, ends the feature: the setups after
    it, every assessment and every teardown are left out, and no
    assessment sub-test is opened.  [execFeature] still returns. *)
Theorem execFeature_setup_exit c f (m : Machine C U)
  (pre post : list (Step C U)) s :
  notMatched (featureRegex (cfg (store m))) (fName f) = false ->
  GetStepsByLevel (fSteps f) LevelSetup = pre ++ s :: post ->
  (forall s', s' ∈ pre -> returns s') ->
  exits s ->
  exists c' st' added,
    execFeature c f m = (Done c', mk (env m) st' (trace m ++ added)) /\
    calledSteps added = pre ++ [s] /\
    openedTests added = [[fName f]].
Proof.
  intros Hm Hsetups Hpre Hs. destruct m as [e st tr]. cbn [env store trace] in *.
  destruct (runSteps_exit pre post s c st Hpre Hs) as (c1 & st1 & Hrun).
  exists c1, st1, (EvRun [fName f] :: List.map EvStep (pre ++ [s])).
  rewrite execFeature_eq, Hm, Hsetups, Hrun.
  split; [now rewrite <- app_assoc|].
  simpl. now rewrite calledSteps_steps, openedTests_steps.
Qed.


End Exits.

(** ** The names that RandomName makes *)

Lemma hexDigit_isHexDigit (i : N) : isHexDigit (hexDigit i) = true.
Proof.
  unfold hexDigit. remember (N.to_nat i) as k eqn:Ek. clear Ek.
  do 17 (destruct k as [|k]; [reflexivity|]). reflexivity.
Qed.

Lemma allHex_EncodeToString (src : list Byte.byte) :
  allHex (EncodeToString src) = true.
Proof.
  induction src as [|v rest IH]; [reflexivity|].
  simpl. now rewrite !hexDigit_isHexDigit, IH.
Qed.

Lemma allHex_substring (k : nat) (s : string) :
  allHex s = true -> allHex (String.substring 0 k s) = true.
Proof.
  revert s. induction k as [|k IH]; intros [|ch s] H; try reflexivity.
  simpl in *. apply andb_true_iff in H as [H1 H2].
  now rewrite H1, (IH s H2).
Qed.

Lemma substring_app (s1 s2 : string) (k : nat) :
  String.substring 0 (String.length s1 + k) (s1 +:+ s2)
  = s1 +:+ String.substring 0 k s2.
Proof.
  induction s1 as [|ch s1 IH]; [reflexivity|].
  simpl. now rewrite IH.
Qed.

Lemma string_app_inv_head (s t1 t2 : string) : s +:+ t1 = s +:+ t2 -> t1 = t2.
Proof.
  induction s as [|ch s IH]; simpl; [tauto|]. intros [= H]. now apply IH.
Qed.

(** What [RandomName] returns for a prefix shorter than the length asked:
    the prefix, a dash, and the first digits of the encoded bytes. *)
Lemma RandomName_eq (rnd : nat -> Byte.byte) (prefix : string) (n : Z) :
  let n' := if n =? 0 then 32 else n in
  len prefix < n' ->
  len prefix + 1 + 2 * n' <= maxAlloc ->
  RandomName rnd prefix n =
  Some (prefix +:+ "-" +:+
        String.substring 0 (Z.to_nat (n' - len prefix - 1))
          (EncodeToString (randRead rnd n'))).
Proof.
  intros n' H Hmax. unfold RandomName. fold n'.
  destruct (len prefix >=? n') eqn:E; [apply Z.geb_le in E; lia|].
  assert (Hp : 0 <= len prefix) by (unfold len; lia).
  rewrite !allocates_true by lia. simpl negb. cbv iota.
  unfold sliceTo.
  assert (Hlen : len (prefix +:+ "-" +:+ EncodeToString (randRead rnd n'))
                 = len prefix + 1 + 2 * n').
  { unfold len in *.
    rewrite !string_length_app, EncodeToString_length, randRead_length.
    simpl String.length. lia. }
  rewrite Hlen.
  replace ((0 <=? n') && (n' <=? len prefix + 1 + 2 * n')) with true
    by (symmetry; apply andb_true_iff; split; apply Z.leb_le; unfold len in *; lia).
  f_equal.
  replace (Z.to_nat n')
    with (String.length prefix + (1 + Z.to_nat (n' - len prefix - 1)))%nat
    by (unfold len in *; lia).
  rewrite substring_app. f_equal.
Qed.

(** Beyond the limit of the allocator the call panics. *)
Lemma RandomName_panics (rnd : nat -> Byte.byte) (prefix : string) (n : Z) :
  let n' := if n =? 0 then 32 else n in
  len prefix < n' ->
  maxAlloc < len prefix + 1 + 2 * n' ->
  RandomName rnd prefix n = None.
Proof.
  intros n' H Hmax. unfold RandomName. fold n'.
  destruct (len prefix >=? n') eqn:E; [apply Z.geb_le in E; lia|].
  destruct (allocates n'); [|reflexivity].
  destruct (allocates (2 * n')); [|reflexivity].
  now rewrite allocates_false.
Qed.

(** X7.  For a prefix shorter than the length asked (32 for 0), and a name
    within the limit of the allocator, the name is the prefix, one dash,
    and lower-case hexadecimal digits that fill the rest of the length:
    nothing else ever comes after the prefix.  Beyond the limit there is no
    name: the call panics. *)
Theorem RandomName_shape (rnd : nat -> Byte.byte) (prefix : string) (n : Z) :
  let n' := if n =? 0 then 32 else n in
  len prefix < n' ->
  (len prefix + 1 + 2 * n' <= maxAlloc ->
   exists digits,
     RandomName rnd prefix n = Some (prefix +:+ "-" +:+ digits) /\
     len digits = n' - len prefix - 1 /\
     allHex digits = true) /\
  (maxAlloc < len prefix + 1 + 2 * n' -> RandomName rnd prefix n = None).
Proof.
  intros n' H. split; [|apply (RandomName_panics rnd prefix n H)].
  intros Hmax.
  eexists. split; [apply (RandomName_eq rnd prefix n H Hmax)|]. split.
  - fold n'. unfold len in *.
    destruct (substring_prefix (Z.to_nat (n' - Z.of_nat (String.length prefix) - 1))
                (EncodeToString (randRead rnd n'))) as [Hl _].
    { rewrite EncodeToString_length, randRead_length. lia. }
    rewrite Hl. lia.
  - apply allHex_substring, allHex_EncodeToString.
Qed.

(** The two digits of a byte give the byte back. *)
Lemma hexValue_byte (v : Byte.byte) :
  Byte.of_N (16 * hexValue (hexDigit (N.shiftr (Byte.to_N v) 4))
             + hexValue (hexDigit (N.land (Byte.to_N v) 15))) = Some v.
Proof. destruct v; vm_compute; reflexivity. Qed.

Lemma hex_pair_inj (v w : Byte.byte) :
  hexDigit (N.shiftr (Byte.to_N v) 4) = hexDigit (N.shiftr (Byte.to_N w) 4) ->
  hexDigit (N.land (Byte.to_N v) 15) = hexDigit (N.land (Byte.to_N w) 15) ->
  v = w.
Proof.
  intros Hhi Hlo. pose proof (hexValue_byte v) as Hv.
  rewrite Hhi, Hlo, hexValue_byte in Hv. congruence.
Qed.

(** Equal beginnings of two encodings come from equal bytes. *)
Lemma EncodeToString_prefix_inj (rnd rnd' : nat -> Byte.byte) (m j k : nat) :
  String.substring 0 k (EncodeToString (List.map rnd (seq j m)))
  = String.substring 0 k (EncodeToString (List.map rnd' (seq j m))) ->
  forall i : nat, (i < m)%nat -> (2 * (i + 1) <= k)%nat ->
                  rnd (j + i)%nat = rnd' (j + i)%nat.
Proof.
  revert j k. induction m as [|m IH]; intros j k Heq i Hi Hk; [lia|].
  destruct k as [|[|k]]; [lia|lia|].
  simpl in Heq. injection Heq as Hhi Hlo Hrest.
  destruct i as [|i].
  - rewrite Nat.add_0_r. now apply hex_pair_inj.
  - replace (j + S i)%nat with (S j + i)%nat by lia.
    apply (IH (S j) k Hrest); lia.
Qed.

(** X8.  Two names made for the same prefix and length are equal only if
    the generators agree on every byte both of whose digits made it into
    the name: a different byte there gives a different name. *)
Theorem RandomName_injective (rnd rnd' : nat -> Byte.byte)
  (prefix : string) (n : Z) (name : string) :
  let n' := if n =? 0 then 32 else n in
  len prefix < n' ->
  RandomName rnd prefix n = Some name ->
  RandomName rnd' prefix n = Some name ->
  forall i : nat, 2 * (Z.of_nat i + 1) <= n' - len prefix - 1 -> rnd i = rnd' i.
Proof.
  intros n' H Hname Hname' i Hi.
  destruct (Z.le_gt_cases (len prefix + 1 + 2 * n') maxAlloc) as [Hmax|Hmax].
  2:{ rewrite (RandomName_panics rnd prefix n H Hmax) in Hname. discriminate. }
  assert (Heq : RandomName rnd prefix n = RandomName rnd' prefix n)
    by now rewrite Hname, Hname'.
  rewrite (RandomName_eq rnd prefix n H Hmax),
    (RandomName_eq rnd' prefix n H Hmax) in Heq.
  fold n' in Heq. injection Heq as Heq.
  apply string_app_inv_head in Heq. simpl in Heq. injection Heq as Heq.
  unfold randRead in Heq.
  apply (EncodeToString_prefix_inj rnd rnd' _ 0 _ Heq i); unfold len in *; lia.
Qed.

(** X9.  [WithRandomNamespace] always sets a namespace, of 32 bytes: the
    prefix "testns-", the dash that [RandomName] adds after any prefix, and
    24 hexadecimal digits.  The other fields are left as they were. *)
Theorem WithRandomNamespace_shape (rnd : nat -> Byte.byte) (c : Config) :
  exists digits,
    WithRandomNamespace rnd c = Some (WithNamespace c ("testns--" +:+ digits)) /\
    String.length digits = 24%nat /\
    allHex digits = true.
Proof.
  unfold WithRandomNamespace, randNS.
  rewrite (RandomName_eq rnd "testns-" 32 eq_refl)
    by (vm_compute; discriminate).
  eexists. split; [reflexivity|]. split.
  - destruct (substring_prefix 24 (EncodeToString (randRead rnd 32))) as [Hl _].
    { rewrite EncodeToString_length, randRead_length. lia. }
    exact Hl.
  - apply allHex_substring, allHex_EncodeToString.
Qed.

(** ** The client of a configuration *)

Section ClientProperties.

Context {KClient : Type}.

Variable NewWithKubeConfigFile : string -> KClient + error.

Lemma useConfig_cached (uses : list (ConfigUse KClient))
  (cc : ClientConfig KClient) (cl : KClient) :
  client cc = Some cl ->
  Forall (fun u => isWithClient u = false) uses ->
  client (fst (fst (useConfig NewWithKubeConfigFile uses cc))) = Some cl /\
  Forall (fun r => r = inl cl)
    (snd (fst (useConfig NewWithKubeConfigFile uses cc))) /\
  snd (useConfig NewWithKubeConfigFile uses cc) = [].
Proof.
  intros Hcl Huses. revert cc Hcl.
  induction Huses as [|u uses Hu _ IH]; intros cc Hcl.
  - simpl. repeat split; [exact Hcl | constructor].
  - destruct u; try discriminate; try (simpl; apply IH; exact Hcl).
    simpl. unfold Client. rewrite Hcl.
    destruct (IH cc Hcl) as (H1 & H2 & H3).
    destruct (useConfig NewWithKubeConfigFile uses cc) as [[cc'' rs] paths'].
    simpl in *.
    repeat split; [exact H1 | now constructor | exact H3].
Qed.

(** X10.  Once [Client] has returned a client, the configuration keeps it
    until [WithClient] is called: whatever other setters are called
    afterwards, a new path to the kubeconfig file included, every later
    call to [Client] returns that same client, and the constructor of
    clients is never called again.  The successful call itself has called
    it at most once.  [WithClient] with a client replaces the one that is
    kept, for the calls that follow; [WithClient] with nil drops it, and
    the next call to [Client] goes to the constructor again. *)
Theorem Client_cached (cc cc' : ClientConfig KClient) (cl : KClient)
  (paths : list string) (uses : list (ConfigUse KClient)) :
  Client NewWithKubeConfigFile cc = (inl cl, cc', paths) ->
  Forall (fun u => isWithClient u = false) uses ->
  let after := fst (fst (useConfig NewWithKubeConfigFile uses cc')) in
  (length paths <= 1)%nat /\
  Forall (fun r => r = inl cl)
    (snd (fst (useConfig NewWithKubeConfigFile uses cc'))) /\
  snd (useConfig NewWithKubeConfigFile uses cc') = [] /\
  (forall (cl2 : KClient) (later : list (ConfigUse KClient)),
     Forall (fun u => isWithClient u = false) later ->
     Forall (fun r => r = inl cl2)
       (snd (fst (useConfig NewWithKubeConfigFile later
                    (WithClient after (Some cl2))))) /\
     snd (useConfig NewWithKubeConfigFile later (WithClient after (Some cl2)))
     = []) /\
  (kubeconfig (settings after) <> "" ->
   snd (Client NewWithKubeConfigFile (WithClient after None))
   = [kubeconfig (settings after)]).
Proof.
  intros HC Huses after.
  assert (Hcl : client cc' = Some cl /\ (length paths <= 1)%nat).
  { unfold Client in HC.
    destruct (client cc) as [cl0|] eqn:E.
    - injection HC as <- <- <-. split; [exact E | simpl; lia].
    - destruct (String.eqb _ _); [discriminate|].
      destruct (NewWithKubeConfigFile _); [|discriminate].
      injection HC as <- <- <-. split; [reflexivity | simpl; lia]. }
  destruct Hcl as [Hcl Hlen]. split; [exact Hlen|].
  destruct (useConfig_cached uses cc' cl Hcl Huses) as (_ & Hrs & Hpaths).
  split; [exact Hrs|]. split; [exact Hpaths|]. split.
  - intros cl2 later Hlater.
    destruct (useConfig_cached later (WithClient after (Some cl2)) cl2 eq_refl Hlater)
      as (_ & Hrs2 & Hpaths2).
    now split.
  - intros Hk. unfold Client, WithClient. cbn [client settings].
    apply String.eqb_neq in Hk. rewrite Hk.
    now destruct (NewWithKubeConfigFile (kubeconfig (settings after))).
Qed.

(** X11.  A call to [Client] that fails changes nothing in the
    configuration, and the failure is not remembered.  It fails in two
    cases only, no client being set: the path to the kubeconfig file is
    empty, and then the constructor is not called; or the constructor
    fails on that path, and its error is wrapped.  Either way, once a path
    is set on which the constructor succeeds, the next call returns the
    client made for that path. *)
Theorem Client_failure (cc cc' : ClientConfig KClient) (err : error)
  (paths : list string) :
  Client NewWithKubeConfigFile cc = (inr err, cc', paths) ->
  cc' = cc /\ client cc = None /\
  ((kubeconfig (settings cc) = "" /\ err = "kubeconfig not set" /\ paths = []) \/
   (kubeconfig (settings cc) <> "" /\
    exists cause,
      NewWithKubeConfigFile (kubeconfig (settings cc)) = inr cause /\
      err = "envconfig: client failed: " +:+ cause /\
      paths = [kubeconfig (settings cc)])) /\
  (forall (kubecfg : string) (cl : KClient),
     kubecfg <> "" ->
     NewWithKubeConfigFile kubecfg = inl cl ->
     fst (fst (Client NewWithKubeConfigFile
                 (onSettings (fun c => WithKubeconfigFile c kubecfg) cc')))
     = inl cl).
Proof.
  unfold Client at 1. destruct (client cc) as [cl0|] eqn:Ecl; [discriminate|].
  assert (Hretry : forall (kubecfg : string) (cl : KClient),
             kubecfg <> "" ->
             NewWithKubeConfigFile kubecfg = inl cl ->
             fst (fst (Client NewWithKubeConfigFile
                         (onSettings (fun c => WithKubeconfigFile c kubecfg) cc)))
             = inl cl).
  { intros kubecfg cl Hk Hnew. unfold Client, onSettings. simpl. rewrite Ecl.
    destruct (String.eqb_spec kubecfg "") as [He|_]; [contradiction|].
    now rewrite Hnew. }
  destruct (String.eqb_spec (kubeconfig (settings cc)) "") as [He|Hne].
  - intros [= <- <- <-]. repeat split; [now left | exact Hretry].
  - destruct (NewWithKubeConfigFile _) as [cl|cause] eqn:E; [discriminate|].
    intros [= <- <- <-]. repeat split; [|exact Hretry].
    right. split; [exact Hne|]. now exists cause.
Qed.

End ClientProperties.

(** ** The registry of providers *)

Section ProviderRegistry.

Context {G : Type}.

Lemma registerAll_fresh (regs : list (string * G)) (registry : gmap string G) :
  NoDup (regs.*1) ->
  (forall providerName, providerName ∈ regs.*1 -> registry !! providerName = None) ->
  exists registry',
    registerAll regs registry = Done registry' /\
    forall providerName f,
      registry' !! providerName = Some f <->
      (providerName, f) ∈ regs \/ registry !! providerName = Some f.
Proof.
  revert registry. induction regs as [|[n g] regs IH]; intros registry Hnd Hfresh.
  - exists registry. split; [reflexivity|]. intros n f. split; [now right|].
    intros [H|H]; [inversion H | exact H].
  - simpl in Hnd. apply NoDup_cons in Hnd as [Hn Hnd].
    simpl. unfold RegisterProvider. rewrite (Hfresh n) by (simpl; now left).
    destruct (IH (<[n := g]> registry) Hnd) as (registry' & Hrun & Hlook).
    { intros n' Hn'. rewrite lookup_insert_ne; [apply Hfresh; now right|].
      intros ->. contradiction. }
    exists registry'. split; [exact Hrun|]. intros n' f. rewrite Hlook.
    rewrite elem_of_cons. destruct (decide (n = n')) as [->|Hne].
    + rewrite lookup_insert_eq, (Hfresh n') by (simpl; now left).
      intuition congruence.
    + rewrite lookup_insert_ne by exact Hne.
      intuition congruence.
Qed.

Lemma registerAll_Done (regs : list (string * G)) (registry registry' : gmap string G) :
  registerAll regs registry = Done registry' ->
  NoDup (regs.*1) /\
  forall providerName, providerName ∈ regs.*1 -> registry !! providerName = None.
Proof.
  revert registry. induction regs as [|[n g] regs IH]; intros registry Hrun.
  - split; [constructor|]. intros n Hn. inversion Hn.
  - simpl in Hrun. unfold RegisterProvider in Hrun.
    destruct (registry !! n) eqn:En; [discriminate|].
    destruct (IH _ Hrun) as [Hnd Hfresh].
    assert (Hn : n ∉ regs.*1).
    { intros Hin. specialize (Hfresh n Hin). now rewrite lookup_insert_eq in Hfresh. }
    split; [simpl; now apply NoDup_cons|].
    intros n' Hn'. simpl in Hn'. apply elem_of_cons in Hn' as [->|Hn']; [exact En|].
    specialize (Hfresh n' Hn').
    rewrite lookup_insert_ne in Hfresh; [exact Hfresh|]. intros ->. contradiction.
Qed.

Lemma GetProviderGenerator_Done (providerName : string)
  (registry : gmap string G) (f : G) :
  GetProviderGenerator providerName registry = Done f <->
  registry !! providerName = Some f.
Proof.
  unfold GetProviderGenerator.
  destruct (registry !! providerName); split; congruence.
Qed.

(** X12.  Registrations made in turn all go through exactly when the names
    are distinct and none is registered yet; any repeated name panics.  When
    they go through, [GetProviderGenerator] returns for each name the
    generator registered under it and still returns what was registered
    before, and for the names that were not in the sequence it does what it
    did before, panic included: a generator, once registered, is never
    replaced. *)
Theorem RegisterProvider_sequence (regs : list (string * G))
  (registry : gmap string G) :
  ((exists registry', registerAll regs registry = Done registry') <->
   (NoDup (regs.*1) /\
    forall providerName, providerName ∈ regs.*1 -> registry !! providerName = None)) /\
  (forall registry',
     registerAll regs registry = Done registry' ->
     forall providerName,
       (forall f,
          GetProviderGenerator providerName registry' = Done f <->
          (providerName, f) ∈ regs \/
          GetProviderGenerator providerName registry = Done f) /\
       (providerName ∉ regs.*1 ->
        GetProviderGenerator providerName registry'
        = GetProviderGenerator providerName registry)).
Proof.
  split.
  - split.
    + intros [registry' Hrun]. now apply registerAll_Done in Hrun.
    + intros [Hnd Hfresh].
      destruct (registerAll_fresh regs registry Hnd Hfresh) as (registry' & Hrun & _).
      now exists registry'.
  - intros registry' Hrun providerName.
    destruct (registerAll_Done _ _ _ Hrun) as [Hnd Hfresh].
    destruct (registerAll_fresh regs registry Hnd Hfresh) as (registry'' & Hrun' & Hlook).
    rewrite Hrun in Hrun'. injection Hrun' as <-.
    split.
    + intros f. rewrite !GetProviderGenerator_Done. apply Hlook.
    + intros Hnot. unfold GetProviderGenerator.
      assert (Heq : registry' !! providerName = registry !! providerName).
      { apply option_eq. intros f. rewrite Hlook. split; [|now right].
        intros [Hin|H]; [|exact H]. exfalso. apply Hnot.
        apply list_elem_of_fmap. now exists (providerName, f). }
      now rewrite Heq.
Qed.

End ProviderRegistry.

(** ** The options of a cluster *)

Lemma default_last_cons (d x : string) (l : list string) :
  default d (last (x :: l)) = default x (last l).
Proof.
  revert d x. induction l as [|y l IH]; intros d x; [reflexivity|].
  now rewrite last_cons_cons, (IH d y), (IH x y).
Qed.

(** X13.  Options applied in turn: the arguments of all the [WithArgs]
    calls are appended, in order, to the arguments that were there, so that
    none is ever dropped or replaced; the name, the version and the init
    configuration are those of the last call that sets them, or the old
    ones when no call does. *)
Theorem applyOptions_calls (calls : list OptionCall) (config : ClusterConfig) :
  Args (applyOptions (optionOf <$> calls) config) = Args config ++ argsIn calls /\
  Name (applyOptions (optionOf <$> calls) config)
    = default (Name config) (last (namesIn calls)) /\
  K8SVersion (applyOptions (optionOf <$> calls) config)
    = default (K8SVersion config) (last (versionsIn calls)) /\
  InitConfig (applyOptions (optionOf <$> calls) config)
    = default (InitConfig config) (last (initConfigsIn calls)).
Proof.
  revert config. induction calls as [|call calls IH]; intros config.
  - simpl. rewrite app_nil_r. repeat split.
  - change (applyOptions (optionOf <$> call :: calls) config)
      with (applyOptions (optionOf <$> calls) (optionOf call config)).
    destruct (IH (optionOf call config)) as (HA & HN & HV & HI).
    rewrite HA, HN, HV, HI.
    unfold argsIn, namesIn, versionsIn, initConfigsIn.
    destruct call; simpl; rewrite ?default_last_cons, <- ?app_assoc;
      repeat split; reflexivity.
Qed.

(** * The kind provider *)

Lemma listed_elem_of (pieces : list string) (name : string) :
  listed pieces name = true <-> name ∈ pieces.
Proof.
  induction pieces as [|c rest IH]; simpl.
  - split; [discriminate | intros H; inversion H].
  - destruct (String.eqb c name) eqn:E.
    + apply String.eqb_eq in E. subst c. split; [intros _; left | reflexivity].
    + apply String.eqb_neq in E. rewrite IH. split.
      * now right.
      * intros H. apply elem_of_cons in H as [H|H]; [congruence | exact H].
Qed.

Lemma splitLines_noNewline (s : string) :
  hasNewline s = false -> splitLines s = [s].
Proof.
  induction s as [|ch rest IH]; simpl; [reflexivity|].
  destruct (Ascii.eqb ch newline); simpl; [discriminate|].
  intros H. now rewrite (IH H).
Qed.

Lemma splitLines_app_newline (e rest : string) :
  hasNewline e = false ->
  splitLines (e +:+ String newline rest) = e :: splitLines rest.
Proof.
  induction e as [|ch e IH]; simpl.
  - intros _. reflexivity.
  - destruct (Ascii.eqb ch newline); simpl; [discriminate|].
    intros H. now rewrite (IH H).
Qed.

Lemma splitLines_Join (names : list string) :
  names <> [] ->
  Forall (fun n => hasNewline n = false) names ->
  splitLines (Join names (String newline EmptyString)) = names.
Proof.
  induction names as [|a rest IH]; [congruence|].
  intros _ Hall. inversion Hall as [|? ? Ha Hrest]; subst.
  destruct rest as [|b rest].
  - now apply splitLines_noNewline.
  - change (Join (a :: b :: rest) (String newline EmptyString))
      with (a +:+ String newline (Join (b :: rest) (String newline EmptyString))).
    rewrite (splitLines_app_newline _ _ Ha).
    f_equal. now apply IH.
Qed.

Ltac kind_simpl :=
  cbv delta [withWorld withProvider];
  cbn [fst snd provider world issued kcfg kubeConfig fetchOnce].

(** Case analysis on the answers of the machine, innermost first. *)
Ltac kind_cases :=
  repeat (kind_simpl;
          match goal with
          | |- context [sysRunProc ?sys ?c ?w] =>
              destruct (sysRunProc sys c w) as [? ?] eqn:?
          | |- context [sysRun ?sys ?c ?w] =>
              destruct (sysRun sys c w) as [? ?] eqn:?
          | |- context [sysStartProc ?sys ?c ?w] =>
              destruct (sysStartProc sys c w) as [? ?] eqn:?
          | |- context [sysTempFile ?sys ?c ?w] =>
              destruct (sysTempFile sys c w) as [[?|?] ?] eqn:?
          | |- context [sysCopy ?sys ?f ?c ?w] =>
              destruct (sysCopy sys f c w) as [[? ?] ?] eqn:?
          | |- context [sysRemoveAll ?sys ?f ?w] =>
              destruct (sysRemoveAll sys f w) as [? ?] eqn:?
          | |- context [match ?x with _ => _ end] => destruct x eqn:?
          end).

Section KindProperties.

Context {W : Type} (sys : System W).

(** X14 ([clusterExists]): a cluster exists when its name is a whole line
    of the output of [kind get clusters].  When the output is the names
    of at least one cluster, one per line, the answer is whether the name
    is one of them; part of a name, or two names at once, is not found.
    When the output is empty, the empty name is found and no other. *)
Theorem clusterExists_whole_lines (name : string) (s : KState W) :
  (forall names : list string,
      names <> [] ->
      Forall (fun n => hasNewline n = false) names ->
      fst (sysRun sys "kind get clusters" (world s))
        = Join names (String newline EmptyString) ->
      (snd (fst (clusterExists sys name s)) = true <-> name ∈ names)) /\
  (fst (sysRun sys "kind get clusters" (world s)) = "" ->
   (snd (fst (clusterExists sys name s)) = true <-> name = "")).
Proof.
  unfold clusterExists, Run_.
  destruct (sysRun sys "kind get clusters" (world s)) as [out w] eqn:E.
  cbn [fst snd]. split.
  - intros names Hne Hall ->. now rewrite splitLines_Join, listed_elem_of.
  - intros ->. simpl. destruct name; simpl; split; congruence.
Qed.

Lemma clusterExists_state (name : string) (s : KState W) :
  snd (clusterExists sys name s)
  = withWorld s ["kind get clusters"]
      (snd (sysRun sys "kind get clusters" (world s))).
Proof.
  unfold clusterExists, Run_.
  now destruct (sysRun sys "kind get clusters" (world s)).
Qed.

Lemma RunProc_state (cmd : string) (s : KState W) :
  snd (RunProc sys cmd s) = withWorld s [cmd] (snd (sysRunProc sys cmd (world s))).
Proof. unfold RunProc. now destruct (sysRunProc sys cmd (world s)). Qed.

Lemma installKind_provider (s : KState W) :
  provider (snd (installKind sys s)) = provider s.
Proof.
  unfold installKind, RunProc, Avail. kind_cases; reflexivity.
Qed.

Lemma installKindIfRequired_provider (s : KState W) :
  provider (snd (installKindIfRequired sys s)) = provider s.
Proof.
  unfold installKindIfRequired.
  destruct (String.eqb (Avail sys "kind" s) ""); [apply installKind_provider | reflexivity].
Qed.

Lemma installKind_available (s s' : KState W) :
  installKind sys s = (None, s') -> Avail sys "kind" s' <> "".
Proof.
  unfold installKind, RunProc, Avail.
  kind_cases; intros H; inversion H; subst;
    kind_simpl;
    match goal with
    | E : negb (String.eqb _ "") = true |- _ =>
        apply negb_true_iff, String.eqb_neq in E; exact E
    end.
Qed.

(** X15 ([installKindIfRequired], [installKind]): when the installation
    check returns no error, [kind] is found on the PATH of the machine it
    leaves, whether it was there before or has been installed; and the
    provider is as it was. *)
Theorem installKindIfRequired_available (s s' : KState W) :
  installKindIfRequired sys s = (None, s') ->
  Avail sys "kind" s' <> "" /\ provider s' = provider s.
Proof.
  intros H. split.
  - revert H. unfold installKindIfRequired.
    destruct (String.eqb (Avail sys "kind" s) "") eqn:E.
    + apply installKind_available.
    + intros H. inversion H; subst. now apply String.eqb_neq.
  - pose proof (installKindIfRequired_provider s) as Hp.
    now rewrite H in Hp.
Qed.

Lemma KubeConfig_fetched (s : KState W) :
  fetchOnce (provider s) = true -> KubeConfig sys s = (stored (provider s), s).
Proof.
  intros H. unfold KubeConfig, stored. rewrite H.
  now destruct (String.eqb (kubeConfig (provider s)) "").
Qed.

Lemma KubeConfig_fetchOnce (s : KState W) :
  fetchOnce (provider (snd (KubeConfig sys s))) = true.
Proof.
  unfold KubeConfig.
  destruct (fetchOnce (provider s)) eqn:E.
  - destruct (String.eqb (kubeConfig (provider s)) ""); exact E.
  - destruct (saveKubeConfig sys s) as [[e|] s1]; cbn; [reflexivity|].
    destruct (String.eqb (kubeConfig (provider s1)) ""); reflexivity.
Qed.

(** X16 ([KubeConfig], [saveKubeConfig]): the kubeconfig is fetched at
    most once.  After any call of [KubeConfig], whatever it has returned,
    a later call on any machine issues no command, leaves the machine and
    the provider as they are, and answers with the stored path, or, when
    no path is stored, with the error that the kubeconfig file is not
    found. *)
Theorem KubeConfig_once (s : KState W) (w : W) (cmds : list string) :
  let k := provider (snd (KubeConfig sys s)) in
  let later := {| provider := k; world := w; issued := cmds |} in
  KubeConfig sys later = (stored k, later).
Proof.
  intros k later. apply KubeConfig_fetched. apply KubeConfig_fetchOnce.
Qed.

Lemma saveKubeConfig_kept (s : KState W) :
  let s1 := snd (saveKubeConfig sys s) in
  kcfg (provider s1) = kcfg (provider s) /\
  fetchOnce (provider s1) = fetchOnce (provider s) /\
  issued s1
  = issued s ++ ["kind get kubeconfig --name " +:+ Name (kcfg (provider s))].
Proof.
  unfold saveKubeConfig, StartProc. cbn zeta.
  kind_cases;
    kind_simpl;
    rewrite ?app_nil_r; repeat split; reflexivity.
Qed.

(** X17 ([KubeConfig], [saveKubeConfig]): an error of the copy into the
    temporary file is reported by the first call only.  The path of the
    file is stored before the copy, so when the copy fails, or copies no
    byte, the first call returns the error of the copy and the next call
    returns the path of that file with no error. *)
Theorem KubeConfig_forgets_failed_copy
    (s : KState W) (p : Started) (file : string) (n : Z) (err : option error)
    (w1 w2 w3 : W) :
  fetchOnce (provider s) = false ->
  sysStartProc sys ("kind get kubeconfig --name " +:+ Name (kcfg (provider s)))
    (world s) = (p, w1) ->
  sErr p = None -> sReadErr p = None -> pErr (sWaited p) = None ->
  sysTempFile sys ("kind-cluser-" +:+ (Name (kcfg (provider s)) +:+ "-kubecfg")) w1
    = (inl file, w2) ->
  file <> "" ->
  sysCopy sys file (sStdout p) w2 = ((n, err), w3) ->
  n = 0 \/ err <> None ->
  fst (KubeConfig sys s)
  = inr ("kind kubecfg file: bytes copied: " +:+ pretty n +:+ ": "
         +:+ showError "w" err +:+ "]") /\
  fst (KubeConfig sys (snd (KubeConfig sys s))) = inl file.
Proof.
  intros Hf Hstart He Hr Hw Htmp Hfile Hcopy Hbad.
  assert (Hsave : KubeConfig sys s
                  = (inr ("kind kubecfg file: bytes copied: " +:+ pretty n +:+ ": "
                          +:+ showError "w" err +:+ "]"),
                     {| provider := {| kcfg := kcfg (provider s);
                                       kubeConfig := file; fetchOnce := true |};
                        world := w3;
                        issued := (issued s
                                   ++ ["kind get kubeconfig --name "
                                       +:+ Name (kcfg (provider s))]) ++ [] |})).
  { unfold KubeConfig, saveKubeConfig, StartProc. rewrite Hf, Hstart.
    kind_simpl.
    rewrite He, Hr, Hw, Htmp, Hcopy.
    kind_simpl.
    assert (Hb : (n =? 0) || (match err with Some _ => true | None => false end) = true).
    { destruct Hbad as [->|Hbad]; [reflexivity|].
      destruct err; [apply orb_true_r | congruence]. }
    now rewrite Hb. }
  rewrite Hsave. cbn [fst snd]. split; [reflexivity|].
  rewrite KubeConfig_fetched by reflexivity.
  unfold stored. cbn [fst provider kubeConfig].
  apply String.eqb_neq in Hfile. now rewrite Hfile.
Qed.

Lemma KubeConfig_kept (s : KState W) :
  let s1 := snd (KubeConfig sys s) in
  kcfg (provider s1) = kcfg (provider s) /\
  issued s1
  = issued s ++ (if fetchOnce (provider s) then []
                 else ["kind get kubeconfig --name " +:+ Name (kcfg (provider s))]).
Proof.
  unfold KubeConfig.
  destruct (fetchOnce (provider s)) eqn:E.
  - rewrite app_nil_r.
    destruct (String.eqb (kubeConfig (provider s)) ""); now split.
  - pose proof (saveKubeConfig_kept s) as (Hc & _ & Hi). cbn zeta in Hc, Hi.
    destruct (saveKubeConfig sys s) as [[e|] s1]; cbn [fst snd] in *.
    + now split.
    + kind_simpl.
      destruct (String.eqb (kubeConfig (provider s1)) ""); now split.
Qed.

Lemma KubeConfig_success (s s' : KState W) (path : string) :
  KubeConfig sys s = (inl path, s') ->
  path <> "" /\ kubeConfig (provider s') = path /\ fetchOnce (provider s') = true.
Proof.
  intros H.
  pose proof (KubeConfig_fetchOnce s) as Hf. rewrite H in Hf. cbn [snd] in Hf.
  revert H. unfold KubeConfig.
  destruct (if fetchOnce (provider s) then _ else _) as [[e|] s1]; [discriminate|].
  destruct (String.eqb (kubeConfig (provider s1)) "") eqn:E; [discriminate|].
  intros H. inversion H; subst. apply String.eqb_neq in E. now repeat split.
Qed.

(** The provider and the machine after the options and the first listing
    of the clusters. *)
Lemma Create_eq (opts : list CreateOptions) (s : KState W) :
  Avail sys "kind" s <> "" ->
  let config := applyOptions opts (kcfg (provider s)) in
  let s2 := {| provider := {| kcfg := config;
                              kubeConfig := kubeConfig (provider s);
                              fetchOnce := fetchOnce (provider s) |};
               world := snd (sysRun sys "kind get clusters" (world s));
               issued := issued s ++ ["kind get clusters"] |} in
  Create sys opts s
  = if listed (splitLines (fst (sysRun sys "kind get clusters" (world s))))
         (Name config)
    then KubeConfig sys s2
    else
      match RunProc sys (createCommand config) s2 with
      | (p, s3) =>
          match pErr p with
          | Some e =>
              (inr ("failed to create kind cluster: " +:+ e +:+ " : "
                    +:+ pResult p), s3)
          | None =>
              match clusterExists sys (Name config) s3 with
              | ((clusters, false), s4) =>
                  (inr ("kind Cluster.Create: cluster " +:+ Name config
                        +:+ " still not in 'cluster list' after creation: "
                        +:+ clusters), s4)
              | ((_, true), s4) => KubeConfig sys s4
              end
          end
      end.
Proof.
  intros Hav config s2. unfold Create, installKindIfRequired.
  change (Avail sys "kind" (withProvider s _)) with (Avail sys "kind" s).
  apply String.eqb_neq in Hav. rewrite Hav.
  unfold clusterExists at 1. unfold Run_.
  kind_simpl.
  destruct (sysRun sys "kind get clusters" (world s)) as [out w] eqn:E.
  kind_simpl.
  reflexivity.
Qed.

(** X18 ([Create]): when [Create] returns a path, the path is not empty,
    it is the path the provider has stored, the fetch has been made, and
    the provider works with the configuration that the options give. *)
Theorem Create_returns_stored_path
    (opts : list CreateOptions) (s s' : KState W) (path : string) :
  Create sys opts s = (inl path, s') ->
  path <> "" /\
  kubeConfig (provider s') = path /\
  fetchOnce (provider s') = true /\
  kcfg (provider s') = applyOptions opts (kcfg (provider s)).
Proof.
  unfold Create.
  set (s0 := withProvider s _).
  pose proof (installKindIfRequired_provider s0) as Hp.
  destruct (installKindIfRequired sys s0) as [[e|] s1]; [discriminate|].
  cbn [snd] in Hp.
  pose proof (clusterExists_state (Name (kcfg (provider s1))) s1) as H2.
  destruct (clusterExists sys (Name (kcfg (provider s1))) s1) as [[out [|]] s2];
    cbn [snd] in H2.
  - intros H. pose proof (KubeConfig_kept s2) as [Hc _]. cbn zeta in Hc.
    rewrite H in Hc. cbn [snd] in Hc.
    destruct (KubeConfig_success _ _ _ H) as (? & ? & ?).
    repeat split; try assumption.
    rewrite Hc, H2. kind_simpl. now rewrite Hp.
  - pose proof (RunProc_state (createCommand (kcfg (provider s2))) s2) as H3.
    destruct (RunProc sys (createCommand (kcfg (provider s2))) s2) as [p s3].
    cbn [snd] in H3.
    destruct (pErr p); [discriminate|].
    pose proof (clusterExists_state (Name (kcfg (provider s1))) s3) as H4.
    destruct (clusterExists sys (Name (kcfg (provider s1))) s3) as [[out' [|]] s4];
      cbn [snd] in H4; [|discriminate].
    intros H. pose proof (KubeConfig_kept s4) as [Hc _]. cbn zeta in Hc.
    rewrite H in Hc. cbn [snd] in Hc.
    destruct (KubeConfig_success _ _ _ H) as (? & ? & ?).
    repeat split; try assumption.
    rewrite Hc, H4. kind_simpl. rewrite H3. kind_simpl.
    rewrite H2. kind_simpl. now rewrite Hp.
Qed.

(** X19 ([Create], [installKindIfRequired], [clusterExists]): with [kind]
    on the PATH and the cluster in the listing, [Create] creates nothing:
    it lists the clusters and, if the kubeconfig has not been fetched
    yet, fetches it, and issues no other command. *)
Theorem Create_existing_cluster (opts : list CreateOptions) (s : KState W) :
  let name := Name (applyOptions opts (kcfg (provider s))) in
  Avail sys "kind" s <> "" ->
  listed (splitLines (fst (sysRun sys "kind get clusters" (world s)))) name = true ->
  issued (snd (Create sys opts s))
  = issued s ++ "kind get clusters"
      :: (if fetchOnce (provider s) then []
          else ["kind get kubeconfig --name " +:+ name]).
Proof.
  intros name Hav Hl. rewrite (Create_eq opts s Hav). cbn zeta. fold name. rewrite Hl.
  match goal with |- issued (snd (KubeConfig sys ?s2)) = _ =>
    pose proof (KubeConfig_kept s2) as [_ Hi] end.
  cbn zeta in Hi. rewrite Hi.
  cbn [provider issued kcfg fetchOnce]. fold name.
  now rewrite <- app_assoc.
Qed.

(** X20 ([Create]): with [kind] on the PATH and the cluster not in the
    listing, the second command is the creation, with the arguments of
    the configuration; and [Create] returns a path only if that command
    reports no error and the cluster is in the listing made after it. *)
Theorem Create_missing_cluster (opts : list CreateOptions) (s : KState W) :
  let config := applyOptions opts (kcfg (provider s)) in
  let w2 := snd (sysRun sys "kind get clusters" (world s)) in
  let created := sysRunProc sys (createCommand config) w2 in
  Avail sys "kind" s <> "" ->
  listed (splitLines (fst (sysRun sys "kind get clusters" (world s))))
    (Name config) = false ->
  (exists rest,
      issued (snd (Create sys opts s))
      = issued s ++ "kind get clusters" :: createCommand config :: rest) /\
  (forall path, fst (Create sys opts s) = inl path ->
     pErr (fst created) = None /\
     listed (splitLines (fst (sysRun sys "kind get clusters" (snd created))))
       (Name config) = true).
Proof.
  intros config w2 created Hav Hl.
  rewrite (Create_eq opts s Hav). cbn zeta. fold config w2. rewrite Hl.
  unfold RunProc, clusterExists, Run_.
  kind_simpl.
  fold created. destruct created as [p w3].
  kind_simpl.
  destruct (pErr p) as [e|].
  - cbn [fst snd issued]. split.
    + exists []. now rewrite <- app_assoc.
    + discriminate.
  - destruct (sysRun sys "kind get clusters" w3) as [out w4].
    kind_simpl.
    destruct (listed (splitLines out) (Name config)).
    + split; [|now split].
      match goal with |- context [KubeConfig sys ?s4] =>
        pose proof (KubeConfig_kept s4) as [_ Hi] end.
      cbn zeta in Hi. rewrite Hi. cbn [issued].
      eexists. rewrite <- !app_assoc. cbn [app]. reflexivity.
    + cbn [fst snd issued]. split; [|discriminate].
      eexists. rewrite <- !app_assoc. cbn [app]. reflexivity.
Qed.

Lemma Destroy_provider (s : KState W) :
  provider (snd (Destroy sys s)) = provider s.
Proof.
  unfold Destroy.
  pose proof (installKindIfRequired_provider s) as Hp.
  destruct (installKindIfRequired sys s) as [[e|] s1]; cbn [snd] in *; [exact Hp|].
  unfold RunProc. kind_cases; exact Hp.
Qed.

(** X21 ([Destroy], [KubeConfig]): [Destroy] removes the kubeconfig file
    but leaves the provider as it is: the stored path and the fetch stay.
    So after a [Destroy], whether it failed or not, [KubeConfig] of a
    provider that had fetched still answers with the path of the file,
    and fetches nothing. *)
Theorem Destroy_keeps_stored_path (s : KState W) :
  fetchOnce (provider s) = true ->
  let s' := snd (Destroy sys s) in
  provider s' = provider s /\
  KubeConfig sys s' = (stored (provider s), s').
Proof.
  intros Hf s'. pose proof (Destroy_provider s) as Hp. fold s' in Hp.
  split; [exact Hp|].
  rewrite KubeConfig_fetched by now rewrite Hp.
  now rewrite Hp.
Qed.

End KindProperties.

(** ** The theorems above on cases *)

Import MoreCases ProviderCases.

Lemma execFeature_setup_exit_witness :
  exists c' st' added,
    execFeature (Some 0) brokenSetup (machine env0 New 0)
    = (Done c', {| env := env0; store := st'; trace := [] ++ added |}) /\
    calledSteps added = [setup "first" (digit 1); setup "second" fatal] /\
    openedTests added = [["broken"]].
Proof.
  apply (execFeature_setup_exit (Some 0) brokenSetup (machine env0 New 0)
           [setup "first" (digit 1)] [setup "third" (digit 3)]
           (setup "second" fatal)).
  - reflexivity.
  - reflexivity.
  - intros s' Hs. apply list_elem_of_In in Hs. simpl in Hs.
    destruct Hs as [<-|[]]. intros c st. eexists. reflexivity.
  - intros c st. reflexivity.
Defined.


Lemma RandomName_shape_witness :
  (exists digits,
      RandomName counting "testns-" 0 = Some ("testns-" +:+ "-" +:+ digits) /\
      len digits = 32 - len "testns-" - 1 /\
      allHex digits = true) /\
  RandomName counting "x" (Z.shiftl 1 62) = None.
Proof.
  split.
  - apply (proj1 (RandomName_shape counting "testns-" 0 eq_refl)).
    vm_compute. discriminate.
  - apply (proj2 (RandomName_shape counting "x" (Z.shiftl 1 62) eq_refl)).
    reflexivity.
Defined.

Lemma RandomName_injective_witness : counting 11 = countingThenZero 11.
Proof.
  apply (RandomName_injective counting countingThenZero "testns-" 32
           "testns--000102030405060708090a0b").
  - reflexivity.
  - vm_compute. reflexivity.
  - vm_compute. reflexivity.
  - vm_compute. discriminate.
Defined.

Lemma Client_cached_witness :
  (length ["/home/dev/.kube/config"] <= 1)%nat /\
  Forall (fun r => r = inl 22%nat)
    (snd (fst (useConfig fileClient
                 [UseWithKubeconfigFile "/missing"; UseClient;
                  UseWithNamespace "other"; UseClient]
                 (snd (fst (Client fileClient homeConfig)))))) /\
  snd (useConfig fileClient
         [UseWithKubeconfigFile "/missing"; UseClient;
          UseWithNamespace "other"; UseClient]
         (snd (fst (Client fileClient homeConfig)))) = [].
Proof.
  destruct (Client_cached fileClient homeConfig
              (snd (fst (Client fileClient homeConfig))) 22%nat
              ["/home/dev/.kube/config"]
              [UseWithKubeconfigFile "/missing"; UseClient;
               UseWithNamespace "other"; UseClient])
    as (H1 & H2 & H3 & _).
  - reflexivity.
  - repeat constructor.
  - split; [exact H1|]. split; [exact H2 | exact H3].
Defined.

Example WithClient_replaces :
  snd (fst (useConfig fileClient
              [UseClient; UseWithClient (Some 7%nat); UseClient;
               UseWithClient None; UseClient]
              homeConfig))
  = [inl 22%nat; inl 7%nat; inl 22%nat].
Proof. reflexivity. Qed.

Lemma Client_failure_witness :
  fst (fst (Client fileClient
              (onSettings (fun c => WithKubeconfigFile c "/home/dev/.kube/config")
                 missingConfig)))
  = inl 22%nat.
Proof.
  destruct (Client_failure fileClient missingConfig missingConfig
              "envconfig: client failed: stat /missing: no such file or directory"
              ["/missing"] eq_refl) as (_ & _ & _ & H).
  apply H; [discriminate | reflexivity].
Defined.

Lemma RegisterProvider_sequence_witness :
  (exists registry',
      registerAll [("kind", 1%nat); ("kwok", 2%nat)]
        (<["vcluster" := 3%nat]> providerRegistry) = Done registry') /\
  ~ (exists registry',
        registerAll [("kind", 1%nat); ("kwok", 2%nat); ("kind", 4%nat)]
          (<["vcluster" := 3%nat]> providerRegistry) = Done registry').
Proof.
  split.
  - apply (proj1 (RegisterProvider_sequence [("kind", 1%nat); ("kwok", 2%nat)]
                    (<["vcluster" := 3%nat]> providerRegistry))).
    split.
    + apply (bool_decide_unpack _). vm_compute. exact I.
    + intros providerName Hin. apply list_elem_of_In in Hin. simpl in Hin.
      destruct Hin as [<-|[<-|[]]]; reflexivity.
  - intros H.
    apply (proj1 (RegisterProvider_sequence
                    [("kind", 1%nat); ("kwok", 2%nat); ("kind", 4%nat)]
                    (<["vcluster" := 3%nat]> providerRegistry))) in H.
    destruct H as [Hnd _]. simpl in Hnd.
    apply NoDup_cons in Hnd as [Hnd _]. apply Hnd. set_solver.
Defined.

Lemma clusterExists_whole_lines_witness :
  (snd (fst (clusterExists host "beta" (started twoClusters))) = true
   <-> "beta" ∈ ["alpha"; "beta"]) /\
  (snd (fst (clusterExists host "alp" (started twoClusters))) = true
   <-> "alp" ∈ ["alpha"; "beta"]) /\
  (snd (fst (clusterExists host "" (started noClusters))) = true <-> "" = "").
Proof.
  split; [|split].
  - apply (proj1 (clusterExists_whole_lines host "beta" (started twoClusters))
             ["alpha"; "beta"]);
      [discriminate | repeat constructor | reflexivity].
  - apply (proj1 (clusterExists_whole_lines host "alp" (started twoClusters))
             ["alpha"; "beta"]);
      [discriminate | repeat constructor | reflexivity].
  - apply (proj2 (clusterExists_whole_lines host "" (started noClusters))).
    reflexivity.
Defined.

Example partial_name_not_found :
  snd (fst (clusterExists host "alp" (started twoClusters))) = false.
Proof. reflexivity. Qed.

Lemma installKindIfRequired_available_witness :
  Avail host "kind" (snd (installKindIfRequired host (started noKind))) <> "" /\
  provider (snd (installKindIfRequired host (started noKind)))
  = provider (started noKind).
Proof.
  apply (installKindIfRequired_available host (started noKind)
           (snd (installKindIfRequired host (started noKind)))).
  reflexivity.
Defined.

Lemma KubeConfig_forgets_failed_copy_witness :
  fst (KubeConfig host (started fullDisk))
  = inr ("kind kubecfg file: bytes copied: " +:+ pretty 0 +:+ ": "
         +:+ showError "w" (Some "no space left on device") +:+ "]") /\
  fst (KubeConfig host (snd (KubeConfig host (started fullDisk))))
  = inl "/tmp/kind-cluser--kubecfg42".
Proof.
  apply (KubeConfig_forgets_failed_copy host (started fullDisk)
           {| sErr := None; sReadErr := None; sStdout := "apiVersion: v1";
              sWaited := finished |}
           "/tmp/kind-cluser--kubecfg42" 0 (Some "no space left on device")
           fullDisk fullDisk fullDisk);
    try reflexivity.
  - discriminate.
  - now left.
Defined.

Example failed_copy_message :
  fst (KubeConfig host (started fullDisk))
  = inr "kind kubecfg file: bytes copied: 0: no space left on device]".
Proof. reflexivity. Qed.

Lemma Create_returns_stored_path_witness :
  "/tmp/kind-cluser-dev-kubecfg42" <> "" /\
  kubeConfig (provider (snd (Create host [WithName "dev"] (started noClusters))))
  = "/tmp/kind-cluser-dev-kubecfg42" /\
  fetchOnce (provider (snd (Create host [WithName "dev"] (started noClusters))))
  = true /\
  kcfg (provider (snd (Create host [WithName "dev"] (started noClusters))))
  = applyOptions [WithName "dev"] (kcfg (provider (started noClusters))).
Proof.
  apply (Create_returns_stored_path host [WithName "dev"] (started noClusters)).
  reflexivity.
Defined.

Lemma Create_existing_cluster_witness :
  issued (snd (Create host [WithName "beta"] (started twoClusters)))
  = [] ++ ["kind get clusters"; "kind get kubeconfig --name " +:+ "beta"].
Proof.
  apply (Create_existing_cluster host [WithName "beta"] (started twoClusters));
    [discriminate | reflexivity].
Defined.

Lemma Create_missing_cluster_witness :
  (exists rest,
      issued (snd (Create host [WithName "dev"; WithArgs ["--wait"; "60s"]]
                     (started noClusters)))
      = [] ++ "kind get clusters"
           :: "kind create cluster --name dev --wait 60s" :: rest) /\
  (forall path,
      fst (Create host [WithName "dev"] (started noClusters)) = inl path ->
      listed (splitLines
                (fst (sysRun host "kind get clusters"
                        (snd (sysRunProc host "kind create cluster --name dev"
                                noClusters)))))
        "dev" = true).
Proof.
  split.
  - apply (Create_missing_cluster host [WithName "dev"; WithArgs ["--wait"; "60s"]]
             (started noClusters)); [discriminate | reflexivity].
  - intros path H.
    apply (proj2 (Create_missing_cluster host [WithName "dev"] (started noClusters)
                    ltac:(discriminate) eq_refl) path H).
Defined.

Lemma Destroy_keeps_stored_path_witness :
  provider (snd (Destroy host (snd (Create host [WithName "beta"] (started twoClusters)))))
  = provider (snd (Create host [WithName "beta"] (started twoClusters))) /\
  KubeConfig host
    (snd (Destroy host (snd (Create host [WithName "beta"] (started twoClusters)))))
  = (inl "/tmp/kind-cluser-beta-kubecfg42",
     snd (Destroy host (snd (Create host [WithName "beta"] (started twoClusters))))).
Proof.
  apply (Destroy_keeps_stored_path host
           (snd (Create host [WithName "beta"] (started twoClusters)))).
  reflexivity.
Defined.
